(** * nex-viewer: the capture parser, its stream reader and a protocol dispatcher

    A shallow embedding of [src/stream.js] (the cursor-based [Stream]),
    [src/parser.js] ([NEXParser]: frame extraction, packet framing, the
    connection registry and secure-server promotion) and of the
    [ServiceItem] protocol dispatcher, followed by the properties of the
    specification that concern them.

    connection.js, packetv0.js, packetv1.js, rmc.js, types.js and the
    request and response structures of the protocol are not among the
    sources: what the parser and the dispatcher need of them is a
    parameter ([Opaque], [Collaborators], [ServiceItem.Bodies]) or, for the
    constructor of a connection and [setRC4Key], a definition that follows
    the specification.

    JavaScript numbers are integers of [Z]; a Node [Buffer] is a list of
    bytes; an exception is an explicit [Throw] completion; objects that are
    shared by reference (connections) live in an object store and are named
    by their index in it. *)

From Stdlib Require Import ZArith Lia.
From Stdlib Require Import Strings.Byte.
From stdpp Require Import base list strings pretty gmap.

Open Scope Z_scope.

#[global] Instance byte_eq_dec : EqDecision byte := Byte.byte_eq_dec.

(** ** Completions: a call returns normally or throws *)

Inductive JsError : Type :=
| RangeError. (* ERR_OUT_OF_RANGE / ERR_BUFFER_OUT_OF_BOUNDS of node:buffer *)

Inductive Completion (A : Type) : Type :=
| Normal (a : A)
| Throw (e : JsError).

Arguments Normal {A} a.
Arguments Throw {A} e.

(** ** Node's Buffer, as far as the sources use it *)

Module Buffer.

Definition t := list byte.

Definition length (b : t) : Z := Z.of_nat (List.length b).

(** A relative index of [TypedArray.prototype.subarray]: negative counts
    from the end, and the result is clamped to [0, len]. *)
Definition relIndex (len i : Z) : Z :=
  if i <? 0 then Z.max (len + i) 0 else Z.min i len.

(** [buf.subarray(start, end)]: the view [start, end) after both indices
    are made relative and clamped; empty when [end] is not after [start]. *)
Definition subarray (b : t) (start end_ : Z) : t :=
  let len := length b in
  let lo := relIndex len start in
  let hi := relIndex len end_ in
  take (Z.to_nat (hi - lo)) (drop (Z.to_nat lo) b).

(** [buf.equals(other)]: same length and same bytes. *)
Definition equals (a b : t) : bool := bool_decide (a = b).

Definition u8 (x : byte) : Z := Z.of_N (Byte.to_N x).

(** The fixed-width readers are called without an offset, so they read at
    index 0; node raises a RangeError when a needed index is undefined. *)
Definition readUInt8 (b : t) : Completion Z :=
  match b with
  | x :: _ => Normal (u8 x)
  | [] => Throw RangeError
  end.

Definition readUInt16LE (b : t) : Completion Z :=
  match b with
  | first :: last :: _ => Normal (u8 first + u8 last * 2 ^ 8)
  | _ => Throw RangeError
  end.

Definition readUInt16BE (b : t) : Completion Z :=
  match b with
  | first :: last :: _ => Normal (u8 first * 2 ^ 8 + u8 last)
  | _ => Throw RangeError
  end.

Definition readUInt32BE (b : t) : Completion Z :=
  match b with
  | first :: b1 :: b2 :: last :: _ =>
      Normal (u8 first * 2 ^ 24 + u8 b1 * 2 ^ 16 + u8 b2 * 2 ^ 8 + u8 last)
  | _ => Throw RangeError
  end.

End Buffer.

(** ** stream.js: class Stream *)

Module Stream.

(** The [connection] field is only consulted by the NEX type readers; it
    is kept as the reference that was passed to the constructor. *)
Record t : Type := mk {
  connection : option nat;
  _buffer : Buffer.t;
  _offset : Z
}.

Definition new (buffer : Buffer.t) (connection : option nat) : t :=
  {| connection := connection; _buffer := buffer; _offset := 0 |}.

(** A method of the stream: it returns a value and the stream as the call
    left it, or it throws. *)
Definition M (A : Type) : Type := t -> Completion (A * t).

Definition ret {A} (a : A) : M A := fun s => Normal (a, s).

Definition bind {A B} (m : M A) (k : A -> M B) : M B :=
  fun s =>
    match m s with
    | Normal (a, s') => k a s'
    | Throw e => Throw e
    end.

(** Lifts a call on a buffer that [readBytes] returned. *)
Definition lift {A} (c : Completion A) : M A :=
  fun s =>
    match c with
    | Normal a => Normal (a, s)
    | Throw e => Throw e
    end.

Definition hasDataLeft (s : t) : bool := _offset s <? Buffer.length (_buffer s).

Definition remaining (s : t) : Z := Buffer.length (_buffer s) - _offset s.

Definition set_offset (o : Z) (s : t) : t :=
  {| connection := connection s; _buffer := _buffer s; _offset := o |}.

Definition skip (value : Z) : M unit :=
  fun s => Normal (tt, set_offset (_offset s + value) s).

Definition read (len : Z) : M Buffer.t :=
  fun s =>
    let read := Buffer.subarray (_buffer s) (_offset s) (_offset s + len) in
    Normal (read, set_offset (_offset s + len) s).

Definition readBytes (len : Z) : M Buffer.t := read len.

Definition readRest : M Buffer.t :=
  fun s => readBytes (remaining s) s.

Definition readUInt8 : M Z := bind (readBytes 1) (fun b => lift (Buffer.readUInt8 b)).

Definition readUInt16BE : M Z := bind (readBytes 2) (fun b => lift (Buffer.readUInt16BE b)).

Definition readUInt16LE : M Z := bind (readBytes 2) (fun b => lift (Buffer.readUInt16LE b)).

Definition readUInt32BE : M Z := bind (readBytes 4) (fun b => lift (Buffer.readUInt32BE b)).

End Stream.

#[global] Instance stream_ret : MRet Stream.M := @Stream.ret.
#[global] Instance stream_bind : MBind Stream.M := fun A B k m => Stream.bind m k.

(** ** parser.js: constants *)

(** PRUDPv0 has no magic; the virtual ports that open a packet stand in. *)
Definition MAGIC_SERVERBOUND : Buffer.t := [xaf; xa1].
Definition MAGIC_CLIENTBOUND : Buffer.t := [xa1; xaf].
Definition MAGIC_V1 : Buffer.t := [xea; xd0].

(** Marks an XID broadcast frame. *)
Definition XID_MAGIC : Buffer.t := [x81; x01; x00].

(** ** parser.js: the frame extractor *)

Record UDPPacket : Type := {
  source : string;
  destination : string;
  sourcePort : Z;
  destinationPort : Z;
  payload : Buffer.t
}.

(** The operands of the 32-bit operators of JavaScript. *)
Definition ToUint32 (n : Z) : Z := n mod 2 ^ 32.
Definition ToInt32 (n : Z) : Z :=
  let u := n mod 2 ^ 32 in if u <? 2 ^ 31 then u else u - 2 ^ 32.

(** [int >>> 24], [int >> 16 & 255], [int >> 8 & 255] and [int & 255],
    rendered by a template literal. *)
Definition int2ip (int : Z) : string :=
  pretty (Z.shiftr (ToUint32 int) 24) +:+ "." +:+
  pretty (Z.land (Z.shiftr (ToInt32 int) 16) 255) +:+ "." +:+
  pretty (Z.land (Z.shiftr (ToInt32 int) 8) 255) +:+ "." +:+
  pretty (Z.land (ToInt32 int) 255).

(** The reads of [parseUDPPacket] once the XID check has passed. *)
Definition parseUDPHeaders : Stream.M (option UDPPacket) :=
  Stream.skip 0xE;; (* the ethernet header *)
  Stream.skip 0x9;; (* until protocol *)
  protocol ← Stream.readUInt8;
  if negb (protocol =? 0x11) then mret None (* not a UDP packet *)
  else
    Stream.skip 0x2;; (* header checksum *)
    sourceInt ← Stream.readUInt32BE;
    let source := int2ip sourceInt in
    destinationInt ← Stream.readUInt32BE;
    let destination := int2ip destinationInt in
    sourcePort ← Stream.readUInt16BE;
    destinationPort ← Stream.readUInt16BE;
    udpPacketLength ← Stream.readUInt16BE;
    Stream.skip 0x2;; (* header checksum *)
    payload ← Stream.readBytes (udpPacketLength - 0x8);
    mret (Some {| source := source; destination := destination;
                  sourcePort := sourcePort; destinationPort := destinationPort;
                  payload := payload |}).

(** [None] is the [undefined] that the method returns for a frame that is
    not to be decoded. *)
Definition parseUDPPacket (frame : Buffer.t) : Completion (option UDPPacket) :=
  if Buffer.equals (Buffer.subarray frame 17 20) XID_MAGIC then Normal None
  else
    match parseUDPHeaders (Stream.new frame None) with
    | Normal (r, _) => Normal r
    | Throw e => Throw e
    end.

(** The XID broadcast frame quoted in [handlePacket]. *)
Definition xid_broadcast_frame : Buffer.t :=
  [ xff; xff; xff; xff; xff; xff; xfe; xe6; xbf; x25; xb3; xcd; x00; x06; x00; x01;
    xaf; x81; x01; x00; x40; x00; x15; x11; x1e; xcd; x34; x26; x51; xeb; xc0; xa8;
    x00; x0d; xe9; xfd; xf3; x28; x00; x26; x2e; x52; xea; xd0; x01; x00; x0f; x16;
    x53; xc0; x88; x42; xe9; x00; xc2; x00; x1a; x5c; x1a; x52 ].

(** ** The classes that parser.js imports *)

(** A connection is shared by reference between the registry, the packets
    and the local variables of [handlePacket]: it is named by its index in
    the object store. *)
Abbreviation ref := nat (only parsing).

(** [new PacketV0(connection, buffer)] and [new PacketV1(connection, buffer)]:
    the version, the owning connection and the bytes handed to the decoder.
    What packetv0.js and packetv1.js decode out of the bytes is not used by
    the parser; the two constructors are taken to return. *)
Inductive Packet : Type :=
| PacketV0 (connection : ref) (buffer : Buffer.t)
| PacketV1 (connection : ref) (buffer : Buffer.t).

#[global] Instance Packet_eq_dec : EqDecision Packet.
Proof. solve_decision. Defined.

Definition packet_buffer (p : Packet) : Buffer.t :=
  match p with PacketV0 _ b | PacketV1 _ b => b end.

Definition packet_connection (p : Packet) : ref :=
  match p with PacketV0 c _ | PacketV1 c _ => c end.

(** The two fields of a [NEXTypes.StationURL] that the parser puts in a
    template literal, as the text they render to. *)
Record StationURL : Type := {
  address : string;
  port : string
}.

(** The values the parser only copies from one connection to another, the
    state of an RC4 cipher, and the rest of a connection's state
    (sequence bookkeeping, fragments). *)
Class Opaque : Type := {
  Val : Type;
  Cipher : Type;
  Internal : Type
}.

Record Connection `{Opaque} : Type := {
  discriminator : string;
  clientAddress : string;
  serverAddress : string;
  accessKey : Val;
  accessKeySum : Val;
  signatureKey : Val;
  sessionKey : Val;
  prudpVersion : Val;
  title : Val;
  isSecureServer : bool;
  checkForSecureServer : bool;
  secureServerStationURL : option StationURL;
  rc4ClientState : Cipher;
  rc4ServerState : Cipher;
  internal : Internal
}.

(** What parser.js calls and the sources at hand do not define: the
    [private-ip] package, the RC4 constructor, the fields of a connection
    as its constructor leaves them, and the connection's own
    [handlePacket], which works on the connection it is called on. *)
Class Collaborators `{Opaque} : Type := {
  isPrivateIP : string -> bool;
  RC4 : Val -> Cipher;
  blank : Connection;
  Connection_handlePacket : Connection -> Packet -> Connection
}.

Section Assignments.
Context `{Opaque}.

Definition set_discriminator (v : string) (c : Connection) : Connection :=
  {| discriminator := v; clientAddress := clientAddress c; serverAddress := serverAddress c;
     accessKey := accessKey c; accessKeySum := accessKeySum c; signatureKey := signatureKey c;
     sessionKey := sessionKey c; prudpVersion := prudpVersion c; title := title c;
     isSecureServer := isSecureServer c; checkForSecureServer := checkForSecureServer c;
     secureServerStationURL := secureServerStationURL c;
     rc4ClientState := rc4ClientState c; rc4ServerState := rc4ServerState c;
     internal := internal c |}.

Definition set_clientAddress (v : string) (c : Connection) : Connection :=
  {| discriminator := discriminator c; clientAddress := v; serverAddress := serverAddress c;
     accessKey := accessKey c; accessKeySum := accessKeySum c; signatureKey := signatureKey c;
     sessionKey := sessionKey c; prudpVersion := prudpVersion c; title := title c;
     isSecureServer := isSecureServer c; checkForSecureServer := checkForSecureServer c;
     secureServerStationURL := secureServerStationURL c;
     rc4ClientState := rc4ClientState c; rc4ServerState := rc4ServerState c;
     internal := internal c |}.

Definition set_serverAddress (v : string) (c : Connection) : Connection :=
  {| discriminator := discriminator c; clientAddress := clientAddress c; serverAddress := v;
     accessKey := accessKey c; accessKeySum := accessKeySum c; signatureKey := signatureKey c;
     sessionKey := sessionKey c; prudpVersion := prudpVersion c; title := title c;
     isSecureServer := isSecureServer c; checkForSecureServer := checkForSecureServer c;
     secureServerStationURL := secureServerStationURL c;
     rc4ClientState := rc4ClientState c; rc4ServerState := rc4ServerState c;
     internal := internal c |}.

Definition set_accessKey (v : Val) (c : Connection) : Connection :=
  {| discriminator := discriminator c; clientAddress := clientAddress c;
     serverAddress := serverAddress c;
     accessKey := v; accessKeySum := accessKeySum c; signatureKey := signatureKey c;
     sessionKey := sessionKey c; prudpVersion := prudpVersion c; title := title c;
     isSecureServer := isSecureServer c; checkForSecureServer := checkForSecureServer c;
     secureServerStationURL := secureServerStationURL c;
     rc4ClientState := rc4ClientState c; rc4ServerState := rc4ServerState c;
     internal := internal c |}.

Definition set_accessKeySum (v : Val) (c : Connection) : Connection :=
  {| discriminator := discriminator c; clientAddress := clientAddress c;
     serverAddress := serverAddress c;
     accessKey := accessKey c; accessKeySum := v; signatureKey := signatureKey c;
     sessionKey := sessionKey c; prudpVersion := prudpVersion c; title := title c;
     isSecureServer := isSecureServer c; checkForSecureServer := checkForSecureServer c;
     secureServerStationURL := secureServerStationURL c;
     rc4ClientState := rc4ClientState c; rc4ServerState := rc4ServerState c;
     internal := internal c |}.

Definition set_signatureKey (v : Val) (c : Connection) : Connection :=
  {| discriminator := discriminator c; clientAddress := clientAddress c;
     serverAddress := serverAddress c;
     accessKey := accessKey c; accessKeySum := accessKeySum c; signatureKey := v;
     sessionKey := sessionKey c; prudpVersion := prudpVersion c; title := title c;
     isSecureServer := isSecureServer c; checkForSecureServer := checkForSecureServer c;
     secureServerStationURL := secureServerStationURL c;
     rc4ClientState := rc4ClientState c; rc4ServerState := rc4ServerState c;
     internal := internal c |}.

Definition set_sessionKey (v : Val) (c : Connection) : Connection :=
  {| discriminator := discriminator c; clientAddress := clientAddress c;
     serverAddress := serverAddress c;
     accessKey := accessKey c; accessKeySum := accessKeySum c; signatureKey := signatureKey c;
     sessionKey := v; prudpVersion := prudpVersion c; title := title c;
     isSecureServer := isSecureServer c; checkForSecureServer := checkForSecureServer c;
     secureServerStationURL := secureServerStationURL c;
     rc4ClientState := rc4ClientState c; rc4ServerState := rc4ServerState c;
     internal := internal c |}.

Definition set_prudpVersion (v : Val) (c : Connection) : Connection :=
  {| discriminator := discriminator c; clientAddress := clientAddress c;
     serverAddress := serverAddress c;
     accessKey := accessKey c; accessKeySum := accessKeySum c; signatureKey := signatureKey c;
     sessionKey := sessionKey c; prudpVersion := v; title := title c;
     isSecureServer := isSecureServer c; checkForSecureServer := checkForSecureServer c;
     secureServerStationURL := secureServerStationURL c;
     rc4ClientState := rc4ClientState c; rc4ServerState := rc4ServerState c;
     internal := internal c |}.

Definition set_title (v : Val) (c : Connection) : Connection :=
  {| discriminator := discriminator c; clientAddress := clientAddress c;
     serverAddress := serverAddress c;
     accessKey := accessKey c; accessKeySum := accessKeySum c; signatureKey := signatureKey c;
     sessionKey := sessionKey c; prudpVersion := prudpVersion c; title := v;
     isSecureServer := isSecureServer c; checkForSecureServer := checkForSecureServer c;
     secureServerStationURL := secureServerStationURL c;
     rc4ClientState := rc4ClientState c; rc4ServerState := rc4ServerState c;
     internal := internal c |}.

Definition set_isSecureServer (v : bool) (c : Connection) : Connection :=
  {| discriminator := discriminator c; clientAddress := clientAddress c;
     serverAddress := serverAddress c;
     accessKey := accessKey c; accessKeySum := accessKeySum c; signatureKey := signatureKey c;
     sessionKey := sessionKey c; prudpVersion := prudpVersion c; title := title c;
     isSecureServer := v; checkForSecureServer := checkForSecureServer c;
     secureServerStationURL := secureServerStationURL c;
     rc4ClientState := rc4ClientState c; rc4ServerState := rc4ServerState c;
     internal := internal c |}.

Definition set_checkForSecureServer (v : bool) (c : Connection) : Connection :=
  {| discriminator := discriminator c; clientAddress := clientAddress c;
     serverAddress := serverAddress c;
     accessKey := accessKey c; accessKeySum := accessKeySum c; signatureKey := signatureKey c;
     sessionKey := sessionKey c; prudpVersion := prudpVersion c; title := title c;
     isSecureServer := isSecureServer c; checkForSecureServer := v;
     secureServerStationURL := secureServerStationURL c;
     rc4ClientState := rc4ClientState c; rc4ServerState := rc4ServerState c;
     internal := internal c |}.

End Assignments.

Section ConnectionClass.
Context `{Collaborators}.

(** Modelled from the spec: the constructor of [Connection]
    (connection.js is not among the sources). The discriminator is the
    identity the connection is created with; every other field starts
    as in [blank]. *)
Definition Connection_new (discriminator : string) : Connection :=
  set_discriminator discriminator blank.

(** Modelled from the spec: [Connection.setRC4Key] (connection.js is not
    among the sources). The two cipher states, one per direction, are
    built anew from the key. *)
Definition setRC4Key (key : Val) (c : Connection) : Connection :=
  {| discriminator := discriminator c; clientAddress := clientAddress c;
     serverAddress := serverAddress c;
     accessKey := accessKey c; accessKeySum := accessKeySum c; signatureKey := signatureKey c;
     sessionKey := sessionKey c; prudpVersion := prudpVersion c; title := title c;
     isSecureServer := isSecureServer c; checkForSecureServer := checkForSecureServer c;
     secureServerStationURL := secureServerStationURL c;
     rc4ClientState := RC4 key; rc4ServerState := RC4 key;
     internal := internal c |}.

End ConnectionClass.

(** ** parser.js: class NEXParser *)

(** [this.emit('connection', connection)] and [this.emit('packet', packet)]. *)
Inductive Event : Type :=
| EvConnection (connection : ref)
| EvPacket (packet : Packet).

#[global] Instance Event_eq_dec : EqDecision Event.
Proof. solve_decision. Defined.

(** [array.findLast(predicate)]: the first element, scanning from the end,
    that satisfies the predicate. *)
Fixpoint findLast {A : Type} (predicate : A -> bool) (l : list A) : option A :=
  match l with
  | [] => None
  | x :: l' =>
      match findLast predicate l' with
      | Some y => Some y
      | None => if predicate x then Some x else None
      end
  end.

Definition isVirtualPortMarker (b : Buffer.t) : bool :=
  Buffer.equals b MAGIC_SERVERBOUND || Buffer.equals b MAGIC_CLIENTBOUND.

(** One turn of the [while] loop of [handlePacket] up to the point where
    [packet] is set: [Some packet], or [None] where the method returns. *)
Definition carve (udpPayload : Buffer.t) (connection : ref) : Stream.M (option Packet) :=
  magic ← Stream.readBytes 0x2;
  if Buffer.equals magic MAGIC_V1 then
    Stream.skip 0x1;; (* Quazal Net-Z packets *)
    packetSpecificDataLength ← Stream.readUInt8;
    payloadSize ← Stream.readUInt16LE;
    source_destination ← Stream.readBytes 0x2;
    if isVirtualPortMarker source_destination then
      Stream.skip (-0x8);; (* back to the start of the packet *)
      payload ← Stream.readBytes (2 + 12 + 16 + packetSpecificDataLength + payloadSize);
      mret (Some (PacketV1 connection payload))
    else
      Stream.readRest;; mret None
  else if isVirtualPortMarker magic then
    mret (Some (PacketV0 connection udpPayload))
  else
    Stream.readRest;; mret None. (* not a NEX packet *)

(** The bytes of a stream that no read has consumed yet: what [readRest]
    would return. *)
Definition unconsumed (s : Stream.t) : Buffer.t :=
  match Stream.readRest s with
  | Normal (rest, _) => rest
  | Throw _ => []
  end.

Section NEXParser.
Context `{Collaborators}.

(** The parser: the registry [this.connections] (an array of references),
    the objects the references name, and the events emitted so far. *)
Record Parser : Type := {
  store : list Connection;
  connections : list ref;
  emitted : list Event
}.

Definition NEXParser_new : Parser :=
  {| store := []; connections := []; emitted := [] |}.

(** How a call of [handlePacket] ends, and the parser it leaves. *)
Inductive Outcome : Type :=
| Returned (st : Parser)
| Threw (e : JsError) (st : Parser).

Definition parser_of (o : Outcome) : Parser :=
  match o with Returned st | Threw _ st => st end.

(** [connection => connection.discriminator === discriminator] *)
Definition hasDiscriminator (st : Parser) (d : string) (r : ref) : bool :=
  match store st !! r with
  | Some c => bool_decide (discriminator c = d)
  | None => false
  end.

Definition lookupConnection (st : Parser) (d : string) : option ref :=
  findLast (hasDiscriminator st d) (connections st).

(** The connections of [older] are still in [newer], each under the
    reference and with the discriminator it had. *)
Definition keeps_identities (older newer : list Connection) : Prop :=
  forall r c, older !! r = Some c ->
    exists c', newer !! r = Some c' /\ discriminator c' = discriminator c.

(** Direction inference: the discriminator, the client address and the
    server address of a datagram. *)
Record Route : Type := {
  route_discriminator : string;
  route_clientAddress : string;
  route_serverAddress : string
}.

Definition route (udpPacket : UDPPacket) : Route :=
  if isPrivateIP (source udpPacket) then
    (* client->server packet *)
    let discriminator := destination udpPacket +:+ ":" +:+ pretty (destinationPort udpPacket) in
    {| route_discriminator := discriminator;
       route_clientAddress := source udpPacket +:+ ":" +:+ pretty (sourcePort udpPacket);
       route_serverAddress := discriminator |}
  else
    (* server->client packet *)
    let discriminator := source udpPacket +:+ ":" +:+ pretty (sourcePort udpPacket) in
    {| route_discriminator := discriminator;
       route_clientAddress := destination udpPacket +:+ ":" +:+ pretty (destinationPort udpPacket);
       route_serverAddress := discriminator |}.

(** [if (newConnection) { this.connections.push(connection);
    this.emit('connection', connection); }] *)
Definition register (connection : ref) (newConnection : bool) (st : Parser) : Parser :=
  if newConnection then
    {| store := store st;
       connections := connections st ++ [connection];
       emitted := emitted st ++ [EvConnection connection] |}
  else st.

(** [connection.handlePacket(packet)] changes the object in place. *)
Definition deliver (connection : ref) (packet : Packet) (st : Parser) : Parser :=
  {| store := alter (fun c => Connection_handlePacket c packet) connection (store st);
     connections := connections st;
     emitted := emitted st |}.

(** The secure-server check that follows [connection.handlePacket]. *)
Definition checkSecureServer (connection : ref) (st : Parser) : Parser :=
  match store st !! connection with
  | None => st
  | Some c =>
      match secureServerStationURL c with
      | None => st
      | Some url =>
          if checkForSecureServer c then
            let secureIP := address url in
            let securePort := port url in
            let secureDiscriminator := secureIP +:+ ":" +:+ securePort in
            let st' :=
              if bool_decide (discriminator c ≠ secureDiscriminator) then
                (* secure server on a different address: a new connection *)
                let secureConnection := Connection_new secureDiscriminator in
                let secureConnection := setRC4Key (sessionKey c) secureConnection in
                let secureConnection := set_accessKey (accessKey c) secureConnection in
                let secureConnection := set_accessKeySum (accessKeySum c) secureConnection in
                let secureConnection := set_signatureKey (signatureKey c) secureConnection in
                let secureConnection := set_sessionKey (sessionKey c) secureConnection in
                let secureConnection := set_prudpVersion (prudpVersion c) secureConnection in
                let secureConnection := set_title (title c) secureConnection in
                let secureConnection := set_isSecureServer true secureConnection in
                let secureConnection := set_clientAddress (clientAddress c) secureConnection in
                let secureConnection := set_serverAddress secureDiscriminator secureConnection in
                {| store := store st ++ [secureConnection];
                   connections := connections st ++ [length (store st)];
                   emitted := emitted st |}
              else
                (* secure server at the same address: only the key changes *)
                let c := set_isSecureServer true c in
                let c := setRC4Key (sessionKey c) c in
                {| store := <[connection := c]> (store st);
                   connections := connections st;
                   emitted := emitted st |}
            in
            {| store := alter (set_checkForSecureServer false) connection (store st');
               connections := connections st';
               emitted := emitted st' |}
          else st
      end
  end.

Definition emitPacket (packet : Packet) (st : Parser) : Parser :=
  {| store := store st;
     connections := connections st;
     emitted := emitted st ++ [EvPacket packet] |}.

(** The rest of a turn of the loop, once [packet] is set. *)
Definition processPacket (connection : ref) (newConnection : bool) (packet : Packet)
    (st : Parser) : Parser :=
  let st := register connection newConnection st in
  let st := deliver connection packet st in
  let st := checkSecureServer connection st in
  emitPacket packet st.

(** [while (stream.hasDataLeft()) { ... }]; [None] when the turns granted
    do not suffice. *)
Fixpoint packetLoop (fuel : nat) (udpPayload : Buffer.t) (connection : ref)
    (newConnection : bool) (stream : Stream.t) (st : Parser) : option Outcome :=
  match fuel with
  | O => None
  | S fuel' =>
      if Stream.hasDataLeft stream then
        match carve udpPayload connection stream with
        | Throw e => Some (Threw e st)
        | Normal (None, _) => Some (Returned st)
        | Normal (Some packet, stream') =>
            packetLoop fuel' udpPayload connection newConnection stream'
              (processPacket connection newConnection packet st)
        end
      else Some (Returned st)
  end.

(** [new Connection(discriminator)] with its two addresses, put in the
    store; it is not in the registry yet. *)
Definition allocate (a : Route) (st : Parser) : ref * Parser :=
  let connection := Connection_new (route_discriminator a) in
  let connection := set_clientAddress (route_clientAddress a) connection in
  let connection := set_serverAddress (route_serverAddress a) connection in
  (length (store st),
   {| store := store st ++ [connection];
      connections := connections st;
      emitted := emitted st |}).

(** [handlePacket] from the point where the frame extractor has returned
    a datagram. *)
Definition handleUDPPacket (udpPacket : UDPPacket) (st : Parser) : option Outcome :=
  let a := route udpPacket in
  (* the latest connection, for a client that reconnects to the same server *)
  let '(connection, newConnection, st) :=
    match lookupConnection st (route_discriminator a) with
    | Some connection => (connection, false, st)
    | None => let '(connection, st) := allocate a st in (connection, true, st)
    end in
  let stream := Stream.new (payload udpPacket) None in
  (* each turn of the loop that goes on moves the cursor forward *)
  packetLoop (S (length (payload udpPacket))) (payload udpPacket)
    connection newConnection stream st.

(** [handlePacket(raw)], on [raw.data]. *)
Definition handlePacket (frame : Buffer.t) (st : Parser) : option Outcome :=
  match parseUDPPacket frame with
  | Throw e => Some (Threw e st)
  | Normal None => Some (Returned st)
  | Normal (Some udpPacket) => handleUDPPacket udpPacket st
  end.

End NEXParser.

(** ** The Service Item protocol: class ServiceItem *)

Module ServiceItem.

Definition ProtocolID : Z := 0x77.

Definition ProtocolName : string := "Service Item".

(** The static methods of the class that serve as handlers. *)
Inductive Method : Type :=
| GetEnvironment
| HttpGetRequest
| HttpGetResponse
| PurchaseServiceItemRequest
| PurchaseServiceItemResponse
| ListServiceItemRequest
| ListServiceItemResponse
| GetBalanceRequest
| GetBalanceResponse
| GetPrepurchaseInfoRequest
| GetPrepurchaseInfoResponse
| GetServiceItemRightRequest
| GetServiceItemRightResponse
| GetPurchaseHistoryRequest
| GetPurchaseHistoryResponse
| PostRightBinaryByAccount
| UseServiceItemByAccountRequest
| UseServiceItemByAccountResponse
| AcquireServiceItemByAccount
| GetSupportId
| GetLawMessageRequest
| GetLawMessageResponse.

(** [static Methods], in the order of its entries. *)
Definition Methods : list (string * Z) :=
  [
    ("GetEnvironment", 0x01);
    ("HttpGetRequest", 0x02);
    ("HttpGetResponse", 0x03);
    ("PurchaseServiceItemRequest", 0x04);
    ("PurchaseServiceItemResponse", 0x05);
    ("ListServiceItemRequest", 0x06);
    ("ListServiceItemResponse", 0x07);
    ("GetBalanceRequest", 0x08);
    ("GetBalanceResponse", 0x09);
    ("GetPrepurchaseInfoRequest", 0x0a);
    ("GetPrepurchaseInfoResponse", 0x0b);
    ("GetServiceItemRightRequest", 0x0c);
    ("GetServiceItemRightResponse", 0x0d);
    ("GetPurchaseHistoryRequest", 0x0e);
    ("GetPurchaseHistoryResponse", 0x0f);
    ("PostRightBinaryByAccount", 0x10);
    ("UseServiceItemByAccountRequest", 0x11);
    ("UseServiceItemByAccountResponse", 0x12);
    ("AcquireServiceItemByAccount", 0x13);
    ("GetSupportId", 0x14);
    ("GetLawMessageRequest", 0x15);
    ("GetLawMessageResponse", 0x16)
  ].

(** [Object.entries(ServiceItem.Methods).reduce(...)], which sets
    [namesObject[value] = key] for every entry. *)
Definition MethodNames : gmap Z string :=
  foldl (fun namesObject entry => let '(key, value) := entry in <[value := key]> namesObject)
    ∅ Methods.

Definition Handlers : gmap Z Method :=
  list_to_map [
    (0x01, GetEnvironment);
    (0x02, HttpGetRequest);
    (0x03, HttpGetResponse);
    (0x04, PurchaseServiceItemRequest);
    (0x05, PurchaseServiceItemResponse);
    (0x06, ListServiceItemRequest);
    (0x07, ListServiceItemResponse);
    (0x08, GetBalanceRequest);
    (0x09, GetBalanceResponse);
    (0x0a, GetPrepurchaseInfoRequest);
    (0x0b, GetPrepurchaseInfoResponse);
    (0x0c, GetServiceItemRightRequest);
    (0x0d, GetServiceItemRightResponse);
    (0x0e, GetPurchaseHistoryRequest);
    (0x0f, GetPurchaseHistoryResponse);
    (0x10, PostRightBinaryByAccount);
    (0x11, UseServiceItemByAccountRequest);
    (0x12, UseServiceItemByAccountResponse);
    (0x13, AcquireServiceItemByAccount);
    (0x14, GetSupportId);
    (0x15, GetLawMessageRequest);
    (0x16, GetLawMessageResponse)
  ].

(** What the dispatcher reads of an [RMCMessage]; [methodId] may be
    [undefined], which is [None]. *)
Record RMCMessage : Type := {
  methodId : option Z;
  isRequest : bool;
  body : Buffer.t
}.

(** The structures of ./requests/service_item and
    ./responses/service_item, whose constructors read the stream and may
    throw. *)
Class Bodies : Type := {
  Parsed : Type;
  Requests : Method -> Stream.t -> Completion Parsed;
  Responses : Method -> Stream.t -> Completion Parsed
}.

Section Dispatch.
Context `{Bodies}.

(** What the dispatcher reads and writes of a packet. [rmcData] is
    [Some b] once [packet.rmcData = { body: b }] has run. *)
Record Packet : Type := {
  rmcMessage : RMCMessage;
  connection : ref;
  rmcData : option Parsed
}.

(** The line written by [console.log], by the values it interpolates:
    the method id and [ServiceItem.MethodNames[methodId]]. *)
Inductive Console : Type :=
| UnknownMethod (methodId : option Z) (name : option string).

(** An object property read with a number, or [undefined], as key. *)
Definition property {A} (o : gmap Z A) (key : option Z) : option A :=
  match key with
  | Some k => o !! k
  | None => None
  end.

(** Every handler has the same shape:
    [if (rmcMessage.isRequest()) return new Requests.XRequest(stream);
     else return new Responses.XResponse(stream);] *)
Definition call (handler : Method) (rmcMessage : RMCMessage) (stream : Stream.t)
    : Completion Parsed :=
  if isRequest rmcMessage then Requests handler stream
  else Responses handler stream.

(** [static handlePacket(packet)]: the packet as the call leaves it and
    the lines written to the console. *)
Definition handlePacket (packet : Packet) : Completion (Packet * list Console) :=
  let methodId := methodId (rmcMessage packet) in
  let handler := property Handlers methodId in
  match handler with
  | None => Normal (packet, [UnknownMethod methodId (property MethodNames methodId)])
  | Some handler =>
      let rmcMessage := rmcMessage packet in
      let stream := Stream.new (body rmcMessage) (Some (connection packet)) in
      match call handler rmcMessage stream with
      | Normal parsed =>
          Normal ({| rmcMessage := rmcMessage; connection := connection packet;
                     rmcData := Some parsed |}, [])
      | Throw e => Throw e
      end
  end.

End Dispatch.

End ServiceItem.

(** ** Inputs and stand-ins on which the model is run *)

(** Ethernet, IPv4 and UDP headers of a datagram with a payload of 60
    bytes, from 192.168.0.13:59901 to 52.38.81.235:62248. *)
Definition headers_to_server : Buffer.t :=
  [ x02; x00; x00; x00; x00; x01; x02; x00; x00; x00; x00; x02; x08; x00;
    x45; x00; x00; x58; x00; x01; x00; x00; x40; x11; x00; x00;
    xc0; xa8; x00; x0d; x34; x26; x51; xeb;
    xe9; xfd; xf3; x28; x00; x44; x00; x00 ].

(** A PRUDPv1 packet without packet-specific data and without payload:
    magic, the 12 bytes of the header, then the 16 bytes of the signature. *)
Definition v1_packet : Buffer.t :=
  [ xea; xd0; x01; x00; x00; x00; xaf; xa1; x00; x00; x00; x00; x00; x00;
    x00; x00; x00; x00; x00; x00; x00; x00; x00; x00; x00; x00; x00; x00; x00; x00 ].

(** The start of a PRUDPv0 packet. *)
Definition v0_bytes : Buffer.t :=
  [ xaf; xa1; x00; x00; x00; x00; x00; x00; x00; x00; x00 ].

Definition two_v1_payload : Buffer.t := v1_packet ++ v1_packet.

Definition two_v1_frame : Buffer.t := headers_to_server ++ two_v1_payload.

Definition v1_then_v0_payload : Buffer.t := v1_packet ++ v0_bytes.

(** A PRUDPv1 packet that announces 16 bytes of payload in a datagram that
    ends after the virtual ports. *)
Definition cut_v1_payload : Buffer.t := [ xea; xd0; x01; x00; x10; x00; xaf; xa1 ].

(** The UDP payload of [xid_broadcast_frame]: the v1 magic, then bytes that
    are no virtual ports where a v1 header has them. *)
Definition xid_payload : Buffer.t :=
  [ xea; xd0; x01; x00; x0f; x16; x53; xc0; x88; x42; xe9; x00; xc2; x00; x1a; x5c; x1a; x52 ].

Definition toy_opaque : Opaque :=
  {| Val := string; Cipher := string; Internal := nat |}.

Section Toy.
#[local] Existing Instance toy_opaque.

Definition toy_blank : Connection :=
{| discriminator := "?"; clientAddress := "?"; serverAddress := "?";
   accessKey := "null"; accessKeySum := "null"; signatureKey := "null";
   sessionKey := "null"; prudpVersion := "null"; title := "null";
   isSecureServer := false; checkForSecureServer := false;
   secureServerStationURL := None;
   rc4ClientState := "RC4(CD&ML)"; rc4ServerState := "RC4(CD&ML)";
   internal := 0%nat |}.

(** The local ranges of 192.168/16 and 10/8 stand for [private-ip]; the toy
  connection counts the packets it was given. *)
Definition toy_collaborators : Collaborators :=
{| isPrivateIP := fun ip => String.prefix "192.168." ip || String.prefix "10." ip;
   RC4 := fun key => "RC4(" +:+ key +:+ ")";
   blank := toy_blank;
   Connection_handlePacket := fun c _ =>
     {| discriminator := discriminator c; clientAddress := clientAddress c;
        serverAddress := serverAddress c;
        accessKey := accessKey c; accessKeySum := accessKeySum c;
        signatureKey := signatureKey c;
        sessionKey := sessionKey c; prudpVersion := prudpVersion c; title := title c;
        isSecureServer := isSecureServer c; checkForSecureServer := checkForSecureServer c;
        secureServerStationURL := secureServerStationURL c;
        rc4ClientState := rc4ClientState c; rc4ServerState := rc4ServerState c;
        internal := S (internal c) |} |}.

(** An authentication connection that has just learned where the secure
  server is. *)
Definition toy_authenticated (url : StationURL) : Connection :=
{| discriminator := "52.38.81.235:62248"; clientAddress := "192.168.0.13:59901";
   serverAddress := "52.38.81.235:62248";
   accessKey := "ridfebb9"; accessKeySum := "0x3a1"; signatureKey := "sig";
   sessionKey := "session"; prudpVersion := "1"; title := "Friends";
   isSecureServer := false; checkForSecureServer := true;
   secureServerStationURL := Some url;
   rc4ClientState := "RC4(CD&ML)"; rc4ServerState := "RC4(CD&ML)";
   internal := 3%nat |}.

Definition toy_parser (url : StationURL) : Parser :=
{| store := [toy_authenticated url]; connections := [0%nat]; emitted := [EvConnection 0%nat] |}.

End Toy.

Definition elsewhere : StationURL := {| address := "52.38.81.240"; port := "60001" |}.
Definition same_socket : StationURL := {| address := "52.38.81.235"; port := "62248" |}.

Definition toy_bodies : ServiceItem.Bodies :=
  {| ServiceItem.Parsed := bool * Z;
     ServiceItem.Requests := fun _ stream => Normal (true, Stream.remaining stream);
     ServiceItem.Responses := fun _ stream => Normal (false, Stream.remaining stream) |}.

Definition toy_message (methodId : Z) : @ServiceItem.Packet toy_bodies :=
  {| ServiceItem.rmcMessage :=
       {| ServiceItem.methodId := Some methodId; ServiceItem.isRequest := true;
          ServiceItem.body := [x01; x02; x03] |};
     ServiceItem.connection := 0%nat;
     ServiceItem.rmcData := None |}.

(** ** stream.js: the other readers *)

Module NEXStream.

(** [buf.readUInt32LE()] of node, at index 0. *)
Definition Buffer_readUInt32LE (b : Buffer.t) : Completion Z :=
  match b with
  | first :: b1 :: b2 :: last :: _ =>
      Normal (Buffer.u8 first + Buffer.u8 b1 * 2 ^ 8 + Buffer.u8 b2 * 2 ^ 16
              + Buffer.u8 last * 2 ^ 24)
  | _ => Throw RangeError
  end.

Definition readUInt32LE : Stream.M Z :=
  Stream.bind (Stream.readBytes 4) (fun b => Stream.lift (Buffer_readUInt32LE b)).

(** [Boolean(this.readUInt8())] *)
Definition readBoolean : Stream.M bool :=
  v ← Stream.readUInt8; mret (negb (v =? 0)).

Definition readNEXBuffer : Stream.M Buffer.t :=
  length ← readUInt32LE;
  Stream.readBytes length.

Definition readNEXQBuffer : Stream.M Buffer.t :=
  length ← Stream.readUInt16LE;
  Stream.readBytes length.

(** [for (let i = 0; i < length; i++) list.push(...)], with [n] turns left
    and the elements pushed so far. The element is read by [input], a
    method called on the stream or the [extract] of a structure. *)
Fixpoint readNEXList_loop {A : Type} (n : nat) (input : Stream.M A) (pushed : list A)
    : Stream.M (list A) :=
  match n with
  | O => mret pushed
  | S n' => x ← input; readNEXList_loop n' input (pushed ++ [x])
  end.

Definition readNEXList {A : Type} (input : Stream.M A) : Stream.M (list A) :=
  length ← readUInt32LE;
  readNEXList_loop (Z.to_nat length) input [].

(** A JavaScript string, by its UTF-16 code units, and [buf.toString()],
    the UTF-8 decoder of node. *)
Class Text : Type := {
  toString : Buffer.t -> list Z
}.

(** [string.toString().replace(/\0/g, '')] *)
Definition readNEXString `{Text} : Stream.M (list Z) :=
  length ← Stream.readUInt16LE;
  string ← Stream.readBytes length;
  mret (filter (fun unit => unit <> 0) (toString string)).

End NEXStream.

(** ** protocols/responses/shop_badge_arcade.js *)

Module ShopBadgeArcade.

Record GetRivTokenResponse : Type := {
  pRivToken : list Z
}.

(** [constructor(stream)] *)
Definition GetRivTokenResponse_new `{NEXStream.Text} : Stream.M GetRivTokenResponse :=
  pRivToken ← NEXStream.readNEXString;
  mret {| pRivToken := pRivToken |}.

(** The object that [toJSON] returns, by its fields: for each, the
    [__typeName] and the [__typeValue]. *)
Definition GetRivTokenResponse_toJSON (this : GetRivTokenResponse)
    : list (string * (string * list Z)) :=
  [("pRivToken", ("String", pRivToken this))].

(** [PostPlayLogResponse] has no constructor of its own: it reads
    nothing. *)
Definition PostPlayLogResponse_new : Stream.M unit := mret tt.

Definition PostPlayLogResponse_toJSON (this : unit) : list (string * (string * list Z)) := [].

End ShopBadgeArcade.

(** ** Layouts and views used to state properties *)

(** The byte of value [n mod 256]. *)
Definition byteOf (n : Z) : byte :=
  default x00 (Byte.of_N (Z.to_N (n mod 256))).

(** The little-endian bytes of a 16-bit and of a 32-bit length. *)
Definition uint16LE (n : Z) : Buffer.t := [byteOf n; byteOf (n / 2 ^ 8)].
Definition uint32LE (n : Z) : Buffer.t :=
  [byteOf n; byteOf (n / 2 ^ 8); byteOf (n / 2 ^ 16); byteOf (n / 2 ^ 24)].

(** A PRUDPv1 packet that is whole: the magic, a virtual port marker where
    the header has the ports, and as many bytes as the header announces. *)
Definition isWholeV1 (p : Buffer.t) : bool :=
  match p with
  | m0 :: m1 :: _ :: psdl :: size0 :: size1 :: port0 :: port1 :: _ =>
      Buffer.equals [m0; m1] MAGIC_V1 &&
      isVirtualPortMarker [port0; port1] &&
      (Buffer.length p =?
         2 + 12 + 16 + Buffer.u8 psdl + (Buffer.u8 size0 + Buffer.u8 size1 * 2 ^ 8))
  | _ => false
  end.

(** The packets and the connections of the events, in the order of the
    events. *)
Definition emittedPackets (events : list Event) : list Packet :=
  omap (fun e => match e with EvPacket p => Some p | EvConnection _ => None end) events.

Definition emittedConnections (events : list Event) : list nat :=
  omap (fun e => match e with EvConnection c => Some c | EvPacket _ => None end) events.

(** The events of a turn of the loop that sets [packet]. *)
Definition turnEvents (connection : nat) (newConnection : bool) (packet : Packet) : list Event :=
  (if newConnection then [EvConnection connection] else []) ++ [EvPacket packet].

(** The connection that [handlePacket] works with for a datagram, and
    [newConnection]: the latest connection of the registry that has the
    discriminator, or the one it creates. *)
Definition connectionFor `{Collaborators} (udpPacket : UDPPacket) (st : Parser) : nat * bool :=
  match lookupConnection st (route_discriminator (route udpPacket)) with
  | Some connection => (connection, false)
  | None => (length (store st), true)
  end.

(** While a datagram is handled: [connection] has the discriminator [d],
    and a connection of [current] that has it is [connection] or had it in
    [base], under the same reference. *)
Definition only_new_match `{Opaque} (base : list Connection) (connection : nat) (d : string)
    (current : list Connection) : Prop :=
  (exists c, current !! connection = Some c /\ discriminator c = d) /\
  (forall r x, current !! r = Some x -> discriminator x = d ->
     r = connection \/ exists x0, base !! r = Some x0 /\ discriminator x0 = d).

(** The [name] of the static method that is a handler. *)
Definition handlerName (handler : ServiceItem.Method) : string :=
  match handler with
  | ServiceItem.GetEnvironment => "GetEnvironment"
  | ServiceItem.HttpGetRequest => "HttpGetRequest"
  | ServiceItem.HttpGetResponse => "HttpGetResponse"
  | ServiceItem.PurchaseServiceItemRequest => "PurchaseServiceItemRequest"
  | ServiceItem.PurchaseServiceItemResponse => "PurchaseServiceItemResponse"
  | ServiceItem.ListServiceItemRequest => "ListServiceItemRequest"
  | ServiceItem.ListServiceItemResponse => "ListServiceItemResponse"
  | ServiceItem.GetBalanceRequest => "GetBalanceRequest"
  | ServiceItem.GetBalanceResponse => "GetBalanceResponse"
  | ServiceItem.GetPrepurchaseInfoRequest => "GetPrepurchaseInfoRequest"
  | ServiceItem.GetPrepurchaseInfoResponse => "GetPrepurchaseInfoResponse"
  | ServiceItem.GetServiceItemRightRequest => "GetServiceItemRightRequest"
  | ServiceItem.GetServiceItemRightResponse => "GetServiceItemRightResponse"
  | ServiceItem.GetPurchaseHistoryRequest => "GetPurchaseHistoryRequest"
  | ServiceItem.GetPurchaseHistoryResponse => "GetPurchaseHistoryResponse"
  | ServiceItem.PostRightBinaryByAccount => "PostRightBinaryByAccount"
  | ServiceItem.UseServiceItemByAccountRequest => "UseServiceItemByAccountRequest"
  | ServiceItem.UseServiceItemByAccountResponse => "UseServiceItemByAccountResponse"
  | ServiceItem.AcquireServiceItemByAccount => "AcquireServiceItemByAccount"
  | ServiceItem.GetSupportId => "GetSupportId"
  | ServiceItem.GetLawMessageRequest => "GetLawMessageRequest"
  | ServiceItem.GetLawMessageResponse => "GetLawMessageResponse"
  end.

(** A decoder that agrees with UTF-8 on ASCII: a code unit per byte. *)
Definition toy_text : NEXStream.Text :=
  {| NEXStream.toString := fun b => Buffer.u8 <$> b |}.

(** * Properties *)

(** ** Buffer and Stream *)

Lemma relIndex_range (len i : Z) : 0 <= len -> 0 <= Buffer.relIndex len i <= len.
Proof. unfold Buffer.relIndex. intros Hlen. destruct (Z.ltb_spec i 0); lia. Qed.

Lemma relIndex_inside (len i : Z) : 0 <= i <= len -> Buffer.relIndex len i = i.
Proof. unfold Buffer.relIndex. intros Hi. destruct (Z.ltb_spec i 0); lia. Qed.

Lemma relIndex_beyond (len i : Z) : 0 <= len -> len <= i -> Buffer.relIndex len i = len.
Proof. unfold Buffer.relIndex. intros Hlen Hi. destruct (Z.ltb_spec i 0); lia. Qed.

Lemma buffer_length_nonneg (b : Buffer.t) : 0 <= Buffer.length b.
Proof. unfold Buffer.length. lia. Qed.

(** A view that lies inside the buffer. *)
Lemma subarray_inside (b : Buffer.t) (lo hi : Z) :
  0 <= lo -> lo <= hi -> hi <= Buffer.length b ->
  Buffer.subarray b lo hi = take (Z.to_nat (hi - lo)) (drop (Z.to_nat lo) b) /\
  Buffer.length (Buffer.subarray b lo hi) = hi - lo.
Proof.
  intros Hlo Hhi Hlen. unfold Buffer.subarray.
  rewrite !relIndex_inside by lia. split; [done|].
  unfold Buffer.length in *. rewrite length_take, length_drop. lia.
Qed.

(** A view whose end lies beyond the buffer stops at the end of the buffer. *)
Lemma subarray_to_end (b : Buffer.t) (lo hi : Z) :
  Buffer.length b <= hi ->
  Buffer.subarray b lo hi = drop (Z.to_nat (Buffer.relIndex (Buffer.length b) lo)) b.
Proof.
  intros Hhi. unfold Buffer.subarray. cbv zeta.
  pose proof (buffer_length_nonneg b) as Hlen.
  rewrite (relIndex_beyond _ hi) by lia.
  pose proof (relIndex_range (Buffer.length b) lo Hlen) as Hr.
  apply take_ge. rewrite length_drop. unfold Buffer.length in *. lia.
Qed.

Lemma subarray_whole (b : Buffer.t) : Buffer.subarray b 0 (Buffer.length b) = b.
Proof.
  rewrite subarray_to_end by lia.
  rewrite relIndex_inside by (pose proof (buffer_length_nonneg b); lia). done.
Qed.

Lemma equals_eq (a b : Buffer.t) : Buffer.equals a b = true <-> a = b.
Proof. unfold Buffer.equals. apply bool_decide_eq_true. Qed.

Lemma u8_range (x : byte) : 0 <= Buffer.u8 x < 256.
Proof.
  unfold Buffer.u8. pose proof (Byte.to_N_bounded x) as Hx. lia.
Qed.

(** C10. Neither [read] nor [readBytes] nor [skip] can throw, and none
    checks the cursor against the buffer: [read(len)] returns the view
    [offset, offset + len) as [subarray] clamps it and moves the cursor by
    [len]. When fewer than [len] bytes remain, what it returns is the bytes
    from the cursor up to the end of the buffer, no more than remain
    (possibly none), and the cursor ends beyond the buffer. [skip] moves
    the cursor by any amount, and [readRest] is [readBytes] of what
    remains. *)
Theorem stream_reads_are_unchecked (s : Stream.t) (len : Z) :
  let L := Buffer.length (Stream._buffer s) in
  let bytes := Buffer.subarray (Stream._buffer s) (Stream._offset s) (Stream._offset s + len) in
  let s' := Stream.set_offset (Stream._offset s + len) s in
  Stream.read len s = Normal (bytes, s') /\
  Stream.readBytes len s = Normal (bytes, s') /\
  Stream._offset s' = Stream._offset s + len /\
  Stream._buffer s' = Stream._buffer s /\
  (Stream.remaining s < len ->
     bytes = drop (Z.to_nat (Buffer.relIndex L (Stream._offset s))) (Stream._buffer s) /\
     (0 <= Stream._offset s -> bytes = drop (Z.to_nat (Stream._offset s)) (Stream._buffer s)) /\
     Buffer.length bytes <= Z.max 0 (Stream.remaining s) /\
     L < Stream._offset s' /\
     Stream.hasDataLeft s' = false) /\
  Stream.skip len s = Normal (tt, s') /\
  Stream.readRest s = Stream.readBytes (Stream.remaining s) s.
Proof.
  cbv zeta. split; [done|]. split; [done|]. split; [done|]. split; [done|].
  split; [|done].
  intros Hshort. unfold Stream.remaining in Hshort.
  pose proof (buffer_length_nonneg (Stream._buffer s)) as Hlen.
  pose proof (relIndex_range _ (Stream._offset s) Hlen) as Hr.
  rewrite subarray_to_end by lia.
  split; [done|]. split; [|split; [|split]].
  - intros Hoff. revert Hr. unfold Buffer.relIndex.
    destruct (Z.ltb_spec (Stream._offset s) 0) as [|_]; [lia|]. intros _.
    destruct (Z.le_ge_cases (Stream._offset s) (Buffer.length (Stream._buffer s))) as [Hle|Hge].
    + by rewrite Z.min_l.
    + rewrite Z.min_r by done.
      unfold Buffer.length in *. rewrite !drop_ge; [done | lia | lia].
  - unfold Stream.remaining, Buffer.length in *. rewrite length_drop.
    revert Hr. unfold Buffer.relIndex.
    destruct (Z.ltb_spec (Stream._offset s) 0); lia.
  - simpl. lia.
  - unfold Stream.hasDataLeft. simpl. apply Z.ltb_ge. lia.
Qed.

(** A read of five bytes with two bytes left. *)
Lemma stream_reads_are_unchecked_witness :
  Stream.read 5 (Stream.mk None [x01; x02; x03] 1) = Normal ([x02; x03], Stream.mk None [x01; x02; x03] 6) /\
  Stream.hasDataLeft (Stream.mk None [x01; x02; x03] 6) = false.
Proof.
  pose proof (stream_reads_are_unchecked (Stream.mk None [x01; x02; x03] 1) 5) as H.
  cbv zeta in H. destruct H as (Hread & _ & _ & _ & Hshort & _).
  split.
  - exact Hread.
  - apply Hshort. vm_compute. reflexivity.
Defined.

(** ** The framer *)

(** [carve] with the reads spelled out as views of the buffer: the magic
    candidate is the view [off, off + 2), the two size fields are read at
    [off + 3] and [off + 4], the virtual ports are the view
    [off + 6, off + 8). *)
Lemma carve_views (udpPayload : Buffer.t) (connection : ref) (s : Stream.t) :
  carve udpPayload connection s =
  let off := Stream._offset s in
  let b := Stream._buffer s in
  if Buffer.equals (Buffer.subarray b off (off + 2)) MAGIC_V1 then
    match Buffer.readUInt8 (Buffer.subarray b (off + 3) (off + 4)) with
    | Throw e => Throw e
    | Normal packetSpecificDataLength =>
        match Buffer.readUInt16LE (Buffer.subarray b (off + 4) (off + 6)) with
        | Throw e => Throw e
        | Normal payloadSize =>
            if isVirtualPortMarker (Buffer.subarray b (off + 6) (off + 8)) then
              let n := 2 + 12 + 16 + packetSpecificDataLength + payloadSize in
              Normal (Some (PacketV1 connection (Buffer.subarray b off (off + n))),
                      Stream.set_offset (off + n) s)
            else Normal (None, Stream.set_offset (Buffer.length b) s)
        end
    end
  else if isVirtualPortMarker (Buffer.subarray b off (off + 2)) then
    Normal (Some (PacketV0 connection udpPayload), Stream.set_offset (off + 2) s)
  else Normal (None, Stream.set_offset (Buffer.length b) s).
Proof.
  destruct s as [cn b off].
  unfold carve, mbind, stream_bind, mret, stream_ret,
    Stream.readUInt8, Stream.readUInt16LE, Stream.readRest, Stream.readBytes,
    Stream.read, Stream.skip, Stream.lift, Stream.remaining, Stream.set_offset,
    Stream.ret, Stream.bind.
  simpl.
  destruct (Buffer.equals (Buffer.subarray b off (off + 2)) MAGIC_V1).
  - simpl. replace (off + 2 + 1) with (off + 3) by lia.
    replace (off + 3 + 1) with (off + 4) by lia.
    destruct (Buffer.readUInt8 _) as [psdl|e]; [|done].
    simpl.
    replace (off + 4 + 2) with (off + 6) by lia.
    destruct (Buffer.readUInt16LE _) as [ps|e]; [|done].
    simpl.
    replace (off + 6 + 2) with (off + 8) by lia.
    destruct (isVirtualPortMarker _).
    + simpl.
      replace (off + 8 + -8) with off by lia. done.
    + simpl.
      do 3 f_equal. lia.
  - destruct (isVirtualPortMarker _); simpl; [done|].
    do 3 f_equal. lia.
Qed.

Lemma readUInt8_at (k : Z) (s : Stream.t) :
  Stream.readUInt8 (Stream.set_offset k s) =
  match Buffer.readUInt8 (Buffer.subarray (Stream._buffer s) k (k + 1)) with
  | Normal a => Normal (a, Stream.set_offset (k + 1) s)
  | Throw e => Throw e
  end.
Proof. reflexivity. Qed.

Lemma readUInt16LE_at (k : Z) (s : Stream.t) :
  Stream.readUInt16LE (Stream.set_offset k s) =
  match Buffer.readUInt16LE (Buffer.subarray (Stream._buffer s) k (k + 2)) with
  | Normal a => Normal (a, Stream.set_offset (k + 2) s)
  | Throw e => Throw e
  end.
Proof. reflexivity. Qed.

Lemma readUInt8_range (b : Buffer.t) (v : Z) :
  Buffer.readUInt8 b = Normal v -> 0 <= v < 256.
Proof.
  destruct b as [|x b]; simpl; [done|].
  intros [= <-]. apply u8_range.
Qed.

Lemma readUInt16LE_range (b : Buffer.t) (v : Z) :
  Buffer.readUInt16LE b = Normal v -> 0 <= v < 65536.
Proof.
  destruct b as [|x [|y b]]; simpl; [done|done|].
  intros [= <-]. pose proof (u8_range x). pose proof (u8_range y). lia.
Qed.

Lemma marker_is_not_v1_magic (b : Buffer.t) :
  isVirtualPortMarker b = true -> Buffer.equals b MAGIC_V1 = false.
Proof.
  unfold isVirtualPortMarker. intros Hm.
  apply orb_true_iff in Hm. destruct Hm as [Hm|Hm]; apply equals_eq in Hm; subst b; reflexivity.
Qed.

(** What [readRest] would return: the bytes that no read has consumed. *)
Lemma unconsumed_at_start (b : Buffer.t) : unconsumed (Stream.new b None) = b.
Proof.
  unfold unconsumed, Stream.readRest, Stream.readBytes, Stream.read, Stream.remaining.
  simpl. rewrite Z.sub_0_r. apply subarray_whole.
Qed.

(** A turn of the loop that sets [packet] leaves the buffer alone and moves
    the cursor forward, by two bytes for a v0 packet and by thirty or more
    for a v1 packet. *)
Lemma carve_advances (udpPayload : Buffer.t) (connection : ref) (s s' : Stream.t)
    (packet : Packet) :
  carve udpPayload connection s = Normal (Some packet, s') ->
  Stream._buffer s' = Stream._buffer s /\ Stream._offset s + 2 <= Stream._offset s'.
Proof.
  rewrite carve_views. cbv zeta.
  destruct (Buffer.equals _ MAGIC_V1).
  - destruct (Buffer.readUInt8 _) as [psdl|e] eqn:Hpsdl; [|done].
    destruct (Buffer.readUInt16LE _) as [ps|e] eqn:Hps; [|done].
    apply readUInt8_range in Hpsdl. apply readUInt16LE_range in Hps.
    destruct (isVirtualPortMarker _); [|done].
    intros [= _ <-]. split; [done | simpl; lia].
  - destruct (isVirtualPortMarker _); [|done].
    intros [= _ <-]. split; [done | simpl; lia].
Qed.

(** C4. Where the framer finds the v1 magic at the cursor and a virtual
    port marker after the size fields, the packet it carves is a PRUDPv1
    packet over the view that starts at the magic (the cursor is back where
    the magic was read) and ends [2 + 12 + 16 + packetSpecificDataLength +
    payloadSize] bytes later, the two lengths being the byte at [off + 3]
    and the little-endian 16 bits at [off + 4]; the cursor ends after that
    view. For a packet that the datagram holds whole, the span starts with
    the magic and has exactly that length. *)
Theorem v1_span_is_the_declared_length (udpPayload : Buffer.t) (connection : ref)
    (s s3 s4 : Stream.t) (packetSpecificDataLength payloadSize : Z) :
  let off := Stream._offset s in
  let b := Stream._buffer s in
  let n := 2 + 12 + 16 + packetSpecificDataLength + payloadSize in
  let span := Buffer.subarray b off (off + n) in
  Buffer.subarray b off (off + 2) = MAGIC_V1 ->
  Stream.readUInt8 (Stream.set_offset (off + 3) s) = Normal (packetSpecificDataLength, s3) ->
  Stream.readUInt16LE (Stream.set_offset (off + 4) s) = Normal (payloadSize, s4) ->
  isVirtualPortMarker (Buffer.subarray b (off + 6) (off + 8)) = true ->
  carve udpPayload connection s =
    Normal (Some (PacketV1 connection span), Stream.set_offset (off + n) s) /\
  (0 <= off -> off + n <= Buffer.length b ->
     Buffer.length span = n /\
     span = take (Z.to_nat n) (drop (Z.to_nat off) b) /\
     take 2 span = MAGIC_V1).
Proof.
  cbv zeta. intros Hmagic Hpsdl Hps Hports.
  rewrite readUInt8_at in Hpsdl. rewrite readUInt16LE_at in Hps.
  replace (Stream._offset s + 3 + 1) with (Stream._offset s + 4) in Hpsdl by lia.
  replace (Stream._offset s + 4 + 2) with (Stream._offset s + 6) in Hps by lia.
  destruct (Buffer.readUInt8 _) as [a|e] eqn:Ha; [|done].
  destruct (Buffer.readUInt16LE _) as [a'|e] eqn:Ha'; [|done].
  injection Hpsdl as -> _. injection Hps as -> _.
  split.
  - rewrite carve_views. cbv zeta.
    apply equals_eq in Hmagic. rewrite Hmagic, Ha, Ha', Hports. done.
  - intros Hoff Hin.
    apply readUInt8_range in Ha. apply readUInt16LE_range in Ha'.
    destruct (subarray_inside (Stream._buffer s) (Stream._offset s)
      (Stream._offset s + (2 + 12 + 16 + packetSpecificDataLength + payloadSize)))
      as [Hspan Hlen]; [lia..|].
    replace (Stream._offset s + (2 + 12 + 16 + packetSpecificDataLength + payloadSize)
             - Stream._offset s)
      with (2 + 12 + 16 + packetSpecificDataLength + payloadSize) in * by lia.
    split; [done|]. split; [done|].
    rewrite Hspan, take_take.
    replace (2 `min` Z.to_nat (2 + 12 + 16 + packetSpecificDataLength + payloadSize))%nat
      with (Z.to_nat (Stream._offset s + 2 - Stream._offset s)) by lia.
    rewrite <- Hmagic.
    symmetry. apply subarray_inside; lia.
Qed.

(** The first of two packets in one datagram. *)
Lemma v1_span_is_the_declared_length_witness :
  carve two_v1_payload 0%nat (Stream.new two_v1_payload None) =
    Normal (Some (PacketV1 0%nat v1_packet), Stream.mk None two_v1_payload 30) /\
  Buffer.length v1_packet = 30.
Proof.
  pose proof (v1_span_is_the_declared_length two_v1_payload 0%nat
    (Stream.new two_v1_payload None)
    (Stream.mk None two_v1_payload 4) (Stream.mk None two_v1_payload 6) 0 0) as H.
  cbv zeta in H.
  destruct H as [Hcarve Hwhole]; [reflexivity..|].
  split.
  - exact Hcarve.
  - apply Hwhole; vm_compute; discriminate.
Defined.

(** A datagram that ends before the span its v1 header announces: the span
    is what is there, 8 bytes for the 46 announced, and the cursor ends
    beyond the buffer. *)
Example cut_v1_packet_is_clamped :
  carve cut_v1_payload 0%nat (Stream.new cut_v1_payload None) =
    Normal (Some (PacketV1 0%nat cut_v1_payload), Stream.mk None cut_v1_payload 46).
Proof. reflexivity. Qed.

(** A datagram that ends inside the size fields of a v1 header: the read
    of the field throws. *)
Example short_v1_header_throws :
  carve [xea; xd0; x01] 0%nat (Stream.new [xea; xd0; x01] None) = Throw RangeError.
Proof. reflexivity. Qed.

(** C3, as amended. Where the two bytes at the cursor are a virtual port
    marker, the framer makes a PRUDPv0 packet over the whole UDP payload,
    from its first byte on, wherever the cursor stands, and moves the
    cursor over the marker only; no length field bounds the bytes handed
    over. With the cursor at the start of the payload these are the bytes
    that remain unconsumed. *)
Theorem v0_packet_gets_the_whole_payload (udpPayload : Buffer.t) (connection : ref)
    (s : Stream.t) :
  let off := Stream._offset s in
  isVirtualPortMarker (Buffer.subarray (Stream._buffer s) off (off + 2)) = true ->
  carve udpPayload connection s =
    Normal (Some (PacketV0 connection udpPayload), Stream.set_offset (off + 2) s) /\
  (s = Stream.new udpPayload None -> udpPayload = unconsumed s).
Proof.
  cbv zeta. intros Hports. split.
  - rewrite carve_views. cbv zeta.
    rewrite (marker_is_not_v1_magic _ Hports), Hports. done.
  - intros ->. symmetry. apply unconsumed_at_start.
Qed.

Lemma v0_packet_gets_the_whole_payload_witness :
  carve v0_bytes 0%nat (Stream.new v0_bytes None) =
    Normal (Some (PacketV0 0%nat v0_bytes), Stream.mk None v0_bytes 2) /\
  v0_bytes = unconsumed (Stream.new v0_bytes None).
Proof.
  pose proof (v0_packet_gets_the_whole_payload v0_bytes 0%nat (Stream.new v0_bytes None)) as H.
  cbv zeta in H. destruct H as [Hcarve Hsame]; [reflexivity|].
  split; [exact Hcarve | apply Hsame; reflexivity].
Defined.

(** C3, as stated, fails on a datagram that holds a v1 packet and then a v0
    packet: the first turn of the loop leaves the cursor at 30, where the
    bytes that remain are [v0_bytes]; the second turn hands the decoder the
    payload from its first byte on. *)
Lemma v0_packet_is_not_the_remaining_payload :
  carve v1_then_v0_payload 0%nat (Stream.new v1_then_v0_payload None) =
    Normal (Some (PacketV1 0%nat v1_packet), Stream.mk None v1_then_v0_payload 30) /\
  unconsumed (Stream.mk None v1_then_v0_payload 30) = v0_bytes /\
  carve v1_then_v0_payload 0%nat (Stream.mk None v1_then_v0_payload 30) =
    Normal (Some (PacketV0 0%nat v1_then_v0_payload), Stream.mk None v1_then_v0_payload 32) /\
  v1_then_v0_payload <> unconsumed (Stream.mk None v1_then_v0_payload 30).
Proof.
  split; [reflexivity|]. split; [reflexivity|]. split; [reflexivity|].
  vm_compute. discriminate.
Qed.

(** ** The parser *)

Section ParserProperties.
Context `{Collaborators}.

Lemma packetLoop_unfold (fuel : nat) (udpPayload : Buffer.t) (connection : ref)
    (newConnection : bool) (stream : Stream.t) (st : Parser) :
  packetLoop (S fuel) udpPayload connection newConnection stream st =
  if Stream.hasDataLeft stream then
    match carve udpPayload connection stream with
    | Throw e => Some (Threw e st)
    | Normal (None, _) => Some (Returned st)
    | Normal (Some packet, stream') =>
        packetLoop fuel udpPayload connection newConnection stream'
          (processPacket connection newConnection packet st)
    end
  else Some (Returned st).
Proof. reflexivity. Qed.

(** The loop ends: every turn that goes on moves the cursor forward, so
    more turns than bytes remain are never needed. *)
Lemma packetLoop_terminates (fuel : nat) (udpPayload : Buffer.t) (connection : ref)
    (newConnection : bool) (stream : Stream.t) (st : Parser) :
  Z.max 0 (Stream.remaining stream) < Z.of_nat fuel ->
  is_Some (packetLoop fuel udpPayload connection newConnection stream st).
Proof.
  revert stream st. induction fuel as [|fuel IH]; intros stream st Hfuel; [lia|].
  rewrite packetLoop_unfold.
  destruct (Stream.hasDataLeft stream) eqn:Hleft; [|eauto].
  destruct (carve udpPayload connection stream) as [[[packet|] stream']|e] eqn:Hcarve;
    [|eauto..].
  apply carve_advances in Hcarve as [Hbuf Hoff].
  apply Z.ltb_lt in Hleft.
  apply IH. unfold Stream.remaining in *. rewrite Hbuf. lia.
Qed.

(** Turns that are granted but not needed change nothing. *)
Lemma packetLoop_more_fuel (fuel extra : nat) (udpPayload : Buffer.t) (connection : ref)
    (newConnection : bool) (stream : Stream.t) (st : Parser) (o : Outcome) :
  packetLoop fuel udpPayload connection newConnection stream st = Some o ->
  packetLoop (fuel + extra) udpPayload connection newConnection stream st = Some o.
Proof.
  revert stream st. induction fuel as [|fuel IH]; intros stream st; [done|].
  change (S fuel + extra)%nat with (S (fuel + extra)).
  rewrite !packetLoop_unfold.
  destruct (Stream.hasDataLeft stream); [|done].
  destruct (carve udpPayload connection stream) as [[[packet|] stream']|e]; [|done..].
  apply IH.
Qed.


(** C7. At a position of the loop where the magic candidate is the v1
    magic and the size fields are there to be read, but the two bytes
    after them are no virtual port marker, the turn sets no packet and
    consumes the rest of the datagram, and [handlePacket] returns there:
    the parser is as it was, nothing is thrown, the loop does not go on. *)
Theorem v1_magic_without_virtual_ports_ends_the_datagram (fuel : nat)
    (udpPayload : Buffer.t) (connection : ref) (newConnection : bool)
    (s s3 s4 : Stream.t) (packetSpecificDataLength payloadSize : Z) (st : Parser) :
  let off := Stream._offset s in
  let b := Stream._buffer s in
  Stream.hasDataLeft s = true ->
  Buffer.subarray b off (off + 2) = MAGIC_V1 ->
  Stream.readUInt8 (Stream.set_offset (off + 3) s) = Normal (packetSpecificDataLength, s3) ->
  Stream.readUInt16LE (Stream.set_offset (off + 4) s) = Normal (payloadSize, s4) ->
  isVirtualPortMarker (Buffer.subarray b (off + 6) (off + 8)) = false ->
  carve udpPayload connection s = Normal (None, Stream.set_offset (Buffer.length b) s) /\
  Stream.hasDataLeft (Stream.set_offset (Buffer.length b) s) = false /\
  packetLoop (S fuel) udpPayload connection newConnection s st = Some (Returned st).
Proof.
  cbv zeta. intros Hleft Hmagic Hpsdl Hps Hports.
  rewrite readUInt8_at in Hpsdl. rewrite readUInt16LE_at in Hps.
  replace (Stream._offset s + 3 + 1) with (Stream._offset s + 4) in Hpsdl by lia.
  replace (Stream._offset s + 4 + 2) with (Stream._offset s + 6) in Hps by lia.
  destruct (Buffer.readUInt8 _) as [a|e] eqn:Ha; [|done].
  destruct (Buffer.readUInt16LE _) as [a'|e] eqn:Ha'; [|done].
  assert (carve udpPayload connection s =
          Normal (None, Stream.set_offset (Buffer.length (Stream._buffer s)) s)) as Hcarve.
  { rewrite carve_views. cbv zeta.
    apply equals_eq in Hmagic. rewrite Hmagic, Ha, Ha', Hports. done. }
  split; [done|]. split.
  - unfold Stream.hasDataLeft. simpl. apply Z.ltb_irrefl.
  - rewrite packetLoop_unfold, Hleft, Hcarve. done.
Qed.

(** C8. A frame whose bytes 17 to 19 are the XID marker is turned down by
    the frame extractor, and [handlePacket] returns at once: no packet is
    decoded, no event is emitted, the registry is as it was. *)
Theorem xid_frame_yields_no_packet (frame : Buffer.t) (st : Parser) :
  Buffer.subarray frame 17 20 = XID_MAGIC ->
  parseUDPPacket frame = Normal None /\
  handlePacket frame st = Some (Returned st).
Proof.
  intros Hxid. apply equals_eq in Hxid.
  unfold handlePacket, parseUDPPacket. rewrite Hxid. done.
Qed.

End ParserProperties.

(** The UDP payload of the broadcast frame of the comment in
    [handlePacket]: it starts with the v1 magic, the bytes where the
    virtual ports would be are 0x53 0xc0. *)
Lemma v1_magic_without_virtual_ports_ends_the_datagram_witness :
  carve xid_payload 0%nat (Stream.new xid_payload None) =
    Normal (None, Stream.mk None xid_payload 18) /\
  @packetLoop _ toy_collaborators 19 xid_payload 0%nat true (Stream.new xid_payload None)
    NEXParser_new = Some (Returned NEXParser_new).
Proof.
  pose proof (@v1_magic_without_virtual_ports_ends_the_datagram _ toy_collaborators
    18 xid_payload 0%nat true (Stream.new xid_payload None)
    (Stream.mk None xid_payload 4) (Stream.mk None xid_payload 6) 0 0x160f
    NEXParser_new) as H.
  cbv zeta in H.
  destruct H as (Hcarve & _ & Hloop); [reflexivity..|].
  split; [exact Hcarve | exact Hloop].
Defined.

Lemma xid_frame_yields_no_packet_witness :
  parseUDPPacket xid_broadcast_frame = Normal None /\
  @handlePacket _ toy_collaborators xid_broadcast_frame NEXParser_new =
    Some (Returned NEXParser_new).
Proof.
  apply (@xid_frame_yields_no_packet _ toy_collaborators). reflexivity.
Defined.

(** Past the XID check the same frame is a UDP datagram whose payload
    starts with the v1 magic. *)
Example xid_frame_aliases_v1 :
  exists s,
    parseUDPHeaders (Stream.new xid_broadcast_frame None) =
      Normal (Some {| source := "52.38.81.235"; destination := "192.168.0.13";
                      sourcePort := 59901; destinationPort := 62248;
                      payload := xid_payload |}, s) /\
    take 2 xid_payload = MAGIC_V1.
Proof. eexists. split; [vm_compute; reflexivity | reflexivity]. Qed.

(** ** Secure-server promotion *)

Section Promotion.
Context `{Collaborators}.

Lemma checkSecureServer_emitted (connection : ref) (st : Parser) :
  emitted (checkSecureServer connection st) = emitted st.
Proof.
  unfold checkSecureServer.
  destruct (store st !! connection) as [c|]; [|done].
  destruct (secureServerStationURL c) as [url|]; [|done].
  destruct (checkForSecureServer c); [|done].
  case_bool_decide; done.
Qed.

(** C2. When the check fires for a connection [c] (a station URL is
    known and [checkForSecureServer] is set):
    - if the station URL names another [ip:port] than the discriminator
      of [c], exactly one connection is created and pushed on the
      registry; it has that [ip:port] as discriminator and server
      address, [isSecureServer] set, both cipher states built from the
      session key of [c], and the access key, its sum, the signature
      key, the session key, the PRUDP version, the title and the client
      address of [c]; of [c] only [checkForSecureServer] changes;
    - if it names the same [ip:port], the registry and the number of
      connections stay as they are, and [c] gets [isSecureServer] set
      and both cipher states rebuilt from its session key;
    - either way [checkForSecureServer] is cleared and no event is
      emitted. *)
Theorem secure_server_promotion (connection : ref) (st : Parser) (c : Connection)
    (url : StationURL) :
  let secureDiscriminator := address url +:+ ":" +:+ port url in
  let st' := checkSecureServer connection st in
  store st !! connection = Some c ->
  secureServerStationURL c = Some url ->
  checkForSecureServer c = true ->
  emitted st' = emitted st /\
  (forall r, r <> connection -> (r < length (store st))%nat -> store st' !! r = store st !! r) /\
  (exists c', store st' !! connection = Some c' /\ checkForSecureServer c' = false) /\
  (discriminator c <> secureDiscriminator ->
     exists secureConnection,
       connections st' = connections st ++ [length (store st)] /\
       length (store st') = S (length (store st)) /\
       store st' !! length (store st) = Some secureConnection /\
       store st' !! connection = Some (set_checkForSecureServer false c) /\
       discriminator secureConnection = secureDiscriminator /\
       isSecureServer secureConnection = true /\
       rc4ClientState secureConnection = RC4 (sessionKey c) /\
       rc4ServerState secureConnection = RC4 (sessionKey c) /\
       accessKey secureConnection = accessKey c /\
       accessKeySum secureConnection = accessKeySum c /\
       signatureKey secureConnection = signatureKey c /\
       sessionKey secureConnection = sessionKey c /\
       prudpVersion secureConnection = prudpVersion c /\
       title secureConnection = title c /\
       clientAddress secureConnection = clientAddress c /\
       serverAddress secureConnection = secureDiscriminator) /\
  (discriminator c = secureDiscriminator ->
     connections st' = connections st /\
     length (store st') = length (store st) /\
     store st' !! connection =
       Some (set_checkForSecureServer false
               (setRC4Key (sessionKey c) (set_isSecureServer true c))) /\
     exists c',
       store st' !! connection = Some c' /\
       isSecureServer c' = true /\
       rc4ClientState c' = RC4 (sessionKey c') /\
       rc4ServerState c' = RC4 (sessionKey c') /\
       sessionKey c' = sessionKey c /\
       discriminator c' = discriminator c).
Proof.
  cbv zeta. intros Hc Hurl Hcheck.
  pose proof (lookup_lt_Some _ _ _ Hc) as Hlt.
  split; [apply checkSecureServer_emitted|].
  unfold checkSecureServer. rewrite Hc, Hurl, Hcheck. cbv zeta.
  case_bool_decide as Hd; cbn [store connections emitted].
  - split; [|split; [|split]].
    + intros r Hr Hrlt.
      rewrite list_lookup_alter_ne by done. by rewrite lookup_app_l.
    + eexists. rewrite list_lookup_alter_eq, lookup_app_l, Hc by done. done.
    + intros _. eexists. split; [done|]. split.
      { rewrite length_alter, length_app. simpl. lia. }
      split.
      { rewrite list_lookup_alter_ne by lia.
        rewrite lookup_app_r by lia. rewrite Nat.sub_diag. done. }
      split.
      { rewrite list_lookup_alter_eq, lookup_app_l, Hc by done. done. }
      repeat split.
    + intros Heq. done.
  - split; [|split; [|split]].
    + intros r Hr Hrlt.
      rewrite list_lookup_alter_ne, list_lookup_insert_ne by done. done.
    + eexists. rewrite list_lookup_alter_eq, list_lookup_insert_eq by done. done.
    + intros Hne. done.
    + intros _. split; [done|]. split.
      { by rewrite length_alter, length_insert. }
      split.
      { rewrite list_lookup_alter_eq, list_lookup_insert_eq by done. done. }
      eexists. split.
      { rewrite list_lookup_alter_eq, list_lookup_insert_eq by done. done. }
      repeat split.
Qed.

End Promotion.

Section PromotionRuns.
#[local] Existing Instance toy_opaque.
#[local] Existing Instance toy_collaborators.

(** The secure server at another address, and at the address of the
    authentication server. *)
Lemma secure_server_promotion_witness :
  connections (checkSecureServer 0%nat (toy_parser elsewhere)) = [0%nat; 1%nat] /\
  store (checkSecureServer 0%nat (toy_parser elsewhere)) !! 0%nat =
    Some (set_checkForSecureServer false (toy_authenticated elsewhere)) /\
  connections (checkSecureServer 0%nat (toy_parser same_socket)) = [0%nat] /\
  store (checkSecureServer 0%nat (toy_parser same_socket)) !! 0%nat =
    Some (set_checkForSecureServer false
            (setRC4Key "session" (set_isSecureServer true (toy_authenticated same_socket)))).
Proof.
  pose proof (secure_server_promotion 0%nat (toy_parser elsewhere)
    (toy_authenticated elsewhere) elsewhere) as Hfar.
  pose proof (secure_server_promotion 0%nat (toy_parser same_socket)
    (toy_authenticated same_socket) same_socket) as Hnear.
  cbv zeta in Hfar, Hnear.
  destruct Hfar as (_ & _ & _ & Hfar & _); [reflexivity..|].
  destruct Hnear as (_ & _ & _ & _ & Hnear); [reflexivity..|].
  destruct Hfar as (sc & Hconns & _ & _ & Hc & _); [vm_compute; discriminate|].
  destruct Hnear as (Hconns' & _ & Hc' & _); [reflexivity|].
  split; [exact Hconns|]. split; [exact Hc|]. split; [exact Hconns'|]. exact Hc'.
Defined.

End PromotionRuns.

(** ** The registry *)

Lemma findLast_app_Some {A : Type} (p : A -> bool) (older newer : list A) (x : A) :
  findLast p newer = Some x -> findLast p (older ++ newer) = Some x.
Proof.
  intros Hx. induction older as [|y older IH]; simpl; [done|]. by rewrite IH.
Qed.

Lemma findLast_app_None {A : Type} (p : A -> bool) (older newer : list A) :
  findLast p newer = None -> findLast p (older ++ newer) = findLast p older.
Proof.
  intros Hx. induction older as [|y older IH]; simpl; [done|]. by rewrite IH.
Qed.

Lemma findLast_None {A : Type} (p : A -> bool) (l : list A) :
  findLast p l = None <-> forall x, x ∈ l -> p x = false.
Proof.
  induction l as [|y l IH]; simpl.
  - split; [|done]. intros _ x Hx. by apply elem_of_nil in Hx.
  - destruct (findLast p l) as [z|] eqn:Hz.
    + split; [done|]. intros Hall.
      assert (Some z = None) as Hcontra; [|done].
      apply IH. intros x Hx. apply Hall. by right.
    + destruct (p y) eqn:Hy.
      * split; [done|]. intros Hall. rewrite Hall in Hy; [done|by left].
      * split; [|done]. intros _ x Hx.
        apply elem_of_cons in Hx as [->|Hx]; [done|]. by apply IH.
Qed.

(** [findLast] returns the match that no match follows. *)
Lemma findLast_Some {A : Type} (p : A -> bool) (l : list A) (x : A) :
  findLast p l = Some x <->
  exists older newer, l = older ++ x :: newer /\ p x = true /\
                      forall y, y ∈ newer -> p y = false.
Proof.
  split.
  - revert x. induction l as [|y l IH]; intros x; simpl; [done|].
    destruct (findLast p l) as [z|] eqn:Hz.
    + intros [= ->]. destruct (IH x eq_refl) as (older & newer & -> & Hp & Hnewer).
      exists (y :: older), newer. done.
    + destruct (p y) eqn:Hy; [|done]. intros [= ->].
      exists [], l. split; [done|]. split; [done|]. by apply findLast_None.
  - intros (older & newer & -> & Hp & Hnewer).
    apply findLast_app_Some. simpl.
    apply findLast_None in Hnewer. by rewrite Hnewer, Hp.
Qed.

Section Growth.
Context `{Collaborators}.

(** The secure-server check pushes at most one reference, that of the
    connection it has just created. *)
Lemma checkSecureServer_connections (connection : ref) (st : Parser) :
  connections (checkSecureServer connection st) = connections st \/
  connections (checkSecureServer connection st) = connections st ++ [length (store st)].
Proof.
  unfold checkSecureServer.
  destruct (store st !! connection) as [c|]; [|by left].
  destruct (secureServerStationURL c) as [url|]; [|by left].
  destruct (checkForSecureServer c); [|by left].
  case_bool_decide; [by right | by left].
Qed.

Lemma checkSecureServer_store_length (connection : ref) (st : Parser) :
  (length (store st) <= length (store (checkSecureServer connection st)))%nat.
Proof.
  unfold checkSecureServer.
  destruct (store st !! connection) as [c|]; [|done].
  destruct (secureServerStationURL c) as [url|]; [|done].
  destruct (checkForSecureServer c); [|done].
  case_bool_decide; cbn [store]; rewrite length_alter.
  - rewrite length_app. lia.
  - by rewrite length_insert.
Qed.

(** A turn of the loop emits the connection when [newConnection] is set,
    then the packet. *)
Lemma processPacket_emitted (connection : ref) (newConnection : bool) (packet : Packet)
    (st : Parser) :
  emitted (processPacket connection newConnection packet st) =
  emitted st ++ (if newConnection then [EvConnection connection] else []) ++ [EvPacket packet].
Proof.
  unfold processPacket, emitPacket. cbn [emitted].
  rewrite checkSecureServer_emitted. unfold deliver, register. cbn [emitted].
  destruct newConnection; cbn [emitted]; [by rewrite <- app_assoc | done].
Qed.

(** A turn of the loop pushes the connection when [newConnection] is
    set, then at most the reference of a connection created in the turn. *)
Lemma processPacket_connections (connection : ref) (newConnection : bool) (packet : Packet)
    (st : Parser) :
  exists promoted,
    connections (processPacket connection newConnection packet st) =
      connections st ++ (if newConnection then [connection] else []) ++ promoted /\
    (promoted = [] \/ promoted = [length (store st)]).
Proof.
  unfold processPacket, emitPacket. cbn [connections].
  destruct (checkSecureServer_connections connection
    (deliver connection packet (register connection newConnection st))) as [-> | ->].
  - exists []. split; [|by left].
    unfold deliver, register. destruct newConnection; cbn [connections]; by rewrite ?app_nil_r.
  - exists [length (store st)]. split; [|by right].
    unfold deliver, register. cbn [store connections]. rewrite length_alter.
    destruct newConnection; cbn [store connections]; [by rewrite <- app_assoc | done].
Qed.

Lemma processPacket_store_length (connection : ref) (newConnection : bool) (packet : Packet)
    (st : Parser) :
  (length (store st) <= length (store (processPacket connection newConnection packet st)))%nat.
Proof.
  unfold processPacket, emitPacket. cbn [store].
  etrans; [|apply checkSecureServer_store_length].
  unfold deliver, register. cbn [store]. rewrite length_alter.
  by destruct newConnection.
Qed.

(** The registry and the events only grow while a datagram is handled. *)
Lemma packetLoop_grows (fuel : nat) (udpPayload : Buffer.t) (connection : ref)
    (newConnection : bool) (stream : Stream.t) (st : Parser) (o : Outcome) :
  packetLoop fuel udpPayload connection newConnection stream st = Some o ->
  connections st `prefix_of` connections (parser_of o) /\
  emitted st `prefix_of` emitted (parser_of o).
Proof.
  revert stream st. induction fuel as [|fuel IH]; intros stream st; [done|].
  rewrite packetLoop_unfold.
  destruct (Stream.hasDataLeft stream); [|by intros [= <-]].
  destruct (carve udpPayload connection stream) as [[[packet|] stream']|e];
    [|by intros [= <-]..].
  intros Hloop. apply IH in Hloop as [Hc He].
  destruct (processPacket_connections connection newConnection packet st)
    as (promoted & Hconns & _).
  pose proof (processPacket_emitted connection newConnection packet st) as Hev.
  split.
  - etrans; [|exact Hc]. rewrite Hconns. by apply prefix_app_r.
  - etrans; [|exact He]. rewrite Hev. by apply prefix_app_r.
Qed.

Lemma handlePacket_grows (frame : Buffer.t) (st : Parser) (o : Outcome) :
  handlePacket frame st = Some o ->
  connections st `prefix_of` connections (parser_of o) /\
  emitted st `prefix_of` emitted (parser_of o).
Proof.
  unfold handlePacket.
  destruct (parseUDPPacket frame) as [[udpPacket|]|e]; [|by intros [= <-]..].
  unfold handleUDPPacket.
  destruct (lookupConnection st _) as [connection|].
  - apply packetLoop_grows.
  - unfold allocate. intros Hloop. by apply packetLoop_grows in Hloop.
Qed.

Lemma keeps_identities_refl (l : list Connection) : keeps_identities l l.
Proof. intros r c Hc. eauto. Qed.

Lemma keeps_identities_trans (l1 l2 l3 : list Connection) :
  keeps_identities l1 l2 -> keeps_identities l2 l3 -> keeps_identities l1 l3.
Proof.
  intros H12 H23 r c Hc.
  destruct (H12 r c Hc) as (c2 & Hc2 & Hd2).
  destruct (H23 r c2 Hc2) as (c3 & Hc3 & Hd3).
  exists c3. split; [done | congruence].
Qed.

Lemma keeps_identities_app (l more : list Connection) : keeps_identities l (l ++ more).
Proof.
  intros r c Hc. exists c. split; [|done].
  rewrite lookup_app_l; [done|]. by eapply lookup_lt_Some.
Qed.

Lemma keeps_identities_alter (f : Connection -> Connection) (i : nat) (l : list Connection) :
  (forall c, discriminator (f c) = discriminator c) ->
  keeps_identities l (alter f i l).
Proof.
  intros Hf r c Hc. destruct (decide (i = r)) as [-> | Hne].
  - exists (f c). by rewrite list_lookup_alter_eq, Hc.
  - exists c. by rewrite list_lookup_alter_ne.
Qed.

Lemma keeps_identities_insert (i : nat) (c c' : Connection) (l : list Connection) :
  l !! i = Some c -> discriminator c' = discriminator c ->
  keeps_identities l (<[i := c']> l).
Proof.
  intros Hi Hd r x Hx. destruct (decide (i = r)) as [-> | Hne].
  - exists c'. rewrite list_lookup_insert_eq by (by eapply lookup_lt_Some).
    split; [done | congruence].
  - exists x. by rewrite list_lookup_insert_ne.
Qed.

(** No assignment of the parser reaches the discriminator of a registered
    connection. *)
Lemma checkSecureServer_keeps_identities (connection : ref) (st : Parser) :
  keeps_identities (store st) (store (checkSecureServer connection st)).
Proof.
  unfold checkSecureServer.
  destruct (store st !! connection) as [c|] eqn:Hc; [|apply keeps_identities_refl].
  destruct (secureServerStationURL c) as [url|]; [|apply keeps_identities_refl].
  destruct (checkForSecureServer c); [|apply keeps_identities_refl].
  case_bool_decide; cbn [store].
  - eapply keeps_identities_trans; [apply keeps_identities_app|].
    by apply keeps_identities_alter.
  - eapply keeps_identities_trans; [|by apply keeps_identities_alter].
    by eapply keeps_identities_insert.
Qed.

Section StableDiscriminator.
(** The connection's own [handlePacket] leaves the identity alone. *)
Hypothesis handlePacket_keeps_discriminator :
  forall c packet, discriminator (Connection_handlePacket c packet) = discriminator c.

Lemma processPacket_keeps_identities (connection : ref) (newConnection : bool)
    (packet : Packet) (st : Parser) :
  keeps_identities (store st) (store (processPacket connection newConnection packet st)).
Proof.
  unfold processPacket, emitPacket. cbn [store].
  eapply keeps_identities_trans; [|apply checkSecureServer_keeps_identities].
  unfold deliver, register. cbn [store].
  destruct newConnection; cbn [store]; by apply keeps_identities_alter.
Qed.

Lemma packetLoop_keeps_identities (fuel : nat) (udpPayload : Buffer.t) (connection : ref)
    (newConnection : bool) (stream : Stream.t) (st : Parser) (o : Outcome) :
  packetLoop fuel udpPayload connection newConnection stream st = Some o ->
  keeps_identities (store st) (store (parser_of o)).
Proof.
  revert stream st. induction fuel as [|fuel IH]; intros stream st; [done|].
  rewrite packetLoop_unfold.
  destruct (Stream.hasDataLeft stream); [|intros [= <-]; apply keeps_identities_refl].
  destruct (carve udpPayload connection stream) as [[[packet|] stream']|e];
    [|intros [= <-]; apply keeps_identities_refl..].
  intros Hloop. apply IH in Hloop.
  eapply keeps_identities_trans; [|exact Hloop].
  apply processPacket_keeps_identities.
Qed.

Lemma handlePacket_keeps_identities (frame : Buffer.t) (st : Parser) (o : Outcome) :
  handlePacket frame st = Some o ->
  keeps_identities (store st) (store (parser_of o)).
Proof.
  unfold handlePacket.
  destruct (parseUDPPacket frame) as [[udpPacket|]|e];
    [|intros [= <-]; apply keeps_identities_refl..].
  unfold handleUDPPacket.
  destruct (lookupConnection st _) as [connection|].
  - apply packetLoop_keeps_identities.
  - unfold allocate. intros Hloop. apply packetLoop_keeps_identities in Hloop.
    eapply keeps_identities_trans; [|exact Hloop]. apply keeps_identities_app.
Qed.

End StableDiscriminator.

Lemma hasDiscriminator_kept (st st' : Parser) (d : string) (r : ref) :
  keeps_identities (store st) (store st') ->
  hasDiscriminator st d r = true -> hasDiscriminator st' d r = true.
Proof.
  unfold hasDiscriminator. intros Hkeeps.
  destruct (store st !! r) as [c|] eqn:Hc; [|done].
  destruct (Hkeeps r c Hc) as (c' & -> & Hd). by rewrite Hd.
Qed.

(** Once a connection with the discriminator is in the registry, the
    lookup returns it or one that was pushed after it. *)
Lemma lookup_not_older (st : Parser) (d : string) (older newer : list ref) (r : ref) :
  connections st = older ++ r :: newer ->
  hasDiscriminator st d r = true ->
  exists r', lookupConnection st d = Some r' /\ r' ∈ r :: newer /\
             hasDiscriminator st d r' = true.
Proof.
  unfold lookupConnection. intros Hconns Hr.
  destruct (findLast (hasDiscriminator st d) (r :: newer)) as [r'|] eqn:Hr'.
  - exists r'. rewrite Hconns. split; [by apply findLast_app_Some|].
    apply findLast_Some in Hr' as (l1 & l2 & Heq & Hd & _).
    split; [|done]. rewrite Heq. apply elem_of_app. right. by left.
  - assert (hasDiscriminator st d r = false) as Hcontra; [|congruence].
    eapply findLast_None; [exact Hr'|]. by left.
Qed.

End Growth.

Section Registry.
Context `{Collaborators}.

(** C6. The lookup returns the connection of the registry that has the
    discriminator and that no connection with the discriminator follows,
    or nothing when no connection has it. Hence once a connection for a
    discriminator has been pushed, the lookup returns it or one pushed
    after it, and right after the push it returns that very connection.
    Handling a frame only appends to the registry: what was registered
    stays, in its place; and where the connection's own [handlePacket]
    leaves discriminators alone, a connection that the registry holds for
    a discriminator keeps later lookups from returning anything that was
    registered before it. *)
Theorem lookup_returns_the_latest (st : Parser) (d : string) :
  (forall r, lookupConnection st d = Some r <->
     exists older newer,
       connections st = older ++ r :: newer /\
       hasDiscriminator st d r = true /\
       forall r', r' ∈ newer -> hasDiscriminator st d r' = false) /\
  (lookupConnection st d = None <->
     forall r, r ∈ connections st -> hasDiscriminator st d r = false) /\
  (forall older r newer,
     connections st = older ++ r :: newer ->
     hasDiscriminator st d r = true ->
     exists r', lookupConnection st d = Some r' /\ r' ∈ r :: newer /\
                hasDiscriminator st d r' = true) /\
  (forall older r,
     connections st = older ++ [r] ->
     hasDiscriminator st d r = true ->
     lookupConnection st d = Some r) /\
  (forall frame o,
     handlePacket frame st = Some o ->
     connections st `prefix_of` connections (parser_of o)) /\
  ((forall c packet, discriminator (Connection_handlePacket c packet) = discriminator c) ->
   forall frame o older r newer,
     handlePacket frame st = Some o ->
     connections st = older ++ r :: newer ->
     hasDiscriminator st d r = true ->
     exists r' later,
       connections (parser_of o) = older ++ r :: later /\
       lookupConnection (parser_of o) d = Some r' /\
       r' ∈ r :: later).
Proof.
  split; [intros r; apply findLast_Some|].
  split; [apply findLast_None|].
  split; [intros older r newer; apply lookup_not_older|].
  split; [|split].
  - intros older r Hconns Hr. unfold lookupConnection. rewrite Hconns.
    apply findLast_app_Some. simpl. by rewrite Hr.
  - intros frame o Ho. by apply handlePacket_grows in Ho as [Hc _].
  - intros Hid frame o older r newer Ho Hconns Hr.
    pose proof (handlePacket_keeps_identities Hid _ _ _ Ho) as Hkeeps.
    apply handlePacket_grows in Ho as [[more Hmore] _].
    assert (connections (parser_of o) = older ++ r :: (newer ++ more)) as Hconns'.
    { rewrite Hmore, Hconns, <- app_assoc. done. }
    destruct (lookup_not_older (parser_of o) d older (newer ++ more) r Hconns')
      as (r' & Hlookup & Hin & _).
    { by eapply hasDiscriminator_kept. }
    exists r', (newer ++ more). done.
Qed.

End Registry.

Section RegistryRuns.
#[local] Existing Instance toy_opaque.
#[local] Existing Instance toy_collaborators.

(** The registry after the promotion to a secure server elsewhere, and
    the frame with two packets handled by a parser that has the
    connection of the flow. *)
Lemma lookup_returns_the_latest_witness :
  lookupConnection (checkSecureServer 0%nat (toy_parser elsewhere)) "52.38.81.240:60001"
    = Some 1%nat /\
  exists o r' later,
    handlePacket two_v1_frame (toy_parser elsewhere) = Some o /\
    connections (parser_of o) = [] ++ 0%nat :: later /\
    lookupConnection (parser_of o) "52.38.81.235:62248" = Some r' /\
    r' ∈ 0%nat :: later.
Proof.
  pose proof (lookup_returns_the_latest (checkSecureServer 0%nat (toy_parser elsewhere))
    "52.38.81.240:60001") as (_ & _ & _ & Hpushed & _).
  pose proof (lookup_returns_the_latest (toy_parser elsewhere) "52.38.81.235:62248")
    as (_ & _ & _ & _ & _ & Hlater).
  split.
  - apply (Hpushed [0%nat]); reflexivity.
  - destruct (handlePacket two_v1_frame (toy_parser elsewhere)) as [o|] eqn:Ho.
    + destruct (Hlater (fun c packet => eq_refl) two_v1_frame o [] 0%nat [] Ho)
        as (r' & later & Hconns & Hlookup & Hin); [reflexivity..|].
      exists o, r', later. split; [reflexivity|]. split; [exact Hconns|].
      split; [exact Hlookup | exact Hin].
    + vm_compute in Ho. discriminate.
Defined.

End RegistryRuns.


(** ** Registration of a new connection *)

Section Registration.
Context `{Collaborators}.

(** A datagram whose first bytes do not pass the framer registers
    nothing and emits nothing, whether the loop returns or a read
    throws. *)
Lemma rejected_datagram_registers_nothing (udpPacket : UDPPacket) (st : Parser) :
  (forall packet stream',
     carve (payload udpPacket) (length (store st)) (Stream.new (payload udpPacket) None)
       <> Normal (Some packet, stream')) ->
  lookupConnection st (route_discriminator (route udpPacket)) = None ->
  exists o, handleUDPPacket udpPacket st = Some o /\
            connections (parser_of o) = connections st /\
            emitted (parser_of o) = emitted st.
Proof.
  intros Hcarve Hnew. unfold handleUDPPacket. rewrite Hnew. unfold allocate.
  rewrite packetLoop_unfold.
  destruct (Stream.hasDataLeft _); [|by eexists].
  destruct (carve _ _ _) as [[[packet|] stream']|e] eqn:Hc; [|by eexists..].
  by destruct (Hcarve packet stream').
Qed.

Lemma parse_two_v1_frame :
  parseUDPPacket two_v1_frame =
  Normal (Some {| source := "192.168.0.13"; destination := "52.38.81.235";
                  sourcePort := 59901; destinationPort := 62248;
                  payload := two_v1_payload |}).
Proof. vm_compute. reflexivity. Qed.

(** C1, on the frame that holds two PRUDPv1 packets of a flow that the
    parser has not seen: [newConnection] stays set after the first turn
    of the loop, so the second turn pushes the same connection on the
    registry and emits the 'connection' event once more. Whatever the
    collaborators do, the parser is left with the connection twice in
    its registry and with two 'connection' events for it. *)
Theorem two_packets_register_the_connection_twice :
  exists st',
    handlePacket two_v1_frame NEXParser_new = Some (Returned st') /\
    filter (fun r => r = 0%nat) (connections st') = [0%nat; 0%nat] /\
    filter (fun e => e = EvConnection 0%nat) (emitted st') =
      [EvConnection 0%nat; EvConnection 0%nat].
Proof.
  unfold handlePacket. rewrite parse_two_v1_frame.
  unfold handleUDPPacket.
  change (lookupConnection NEXParser_new _) with (@None nat).
  unfold allocate. cbn [payload store NEXParser_new length connections emitted].
  set (c0 := set_serverAddress _ _).
  set (st0 := {| store := [] ++ [c0]; connections := []; emitted := [] |}).
  set (p1 := PacketV1 0%nat v1_packet).
  eexists. split.
  - apply (packetLoop_more_fuel 3 58).
    rewrite packetLoop_unfold.
    change (Stream.hasDataLeft (Stream.new two_v1_payload None)) with true.
    change (carve two_v1_payload 0%nat (Stream.new two_v1_payload None))
      with (Normal (Some p1, Stream.mk None two_v1_payload 30)).
    cbv iota beta.
    rewrite packetLoop_unfold.
    change (Stream.hasDataLeft (Stream.mk None two_v1_payload 30)) with true.
    change (carve two_v1_payload 0%nat (Stream.mk None two_v1_payload 30))
      with (Normal (Some p1, Stream.mk None two_v1_payload 60)).
    cbv iota beta.
    rewrite packetLoop_unfold.
    change (Stream.hasDataLeft (Stream.mk None two_v1_payload 60)) with false.
    cbv iota. reflexivity.
  - destruct (processPacket_connections 0%nat true p1 st0) as (pr1 & Hc1 & Hpr1).
    pose proof (processPacket_emitted 0%nat true p1 st0) as He1.
    pose proof (processPacket_store_length 0%nat true p1 st0) as Hl1.
    set (st1 := processPacket 0%nat true p1 st0) in *.
    destruct (processPacket_connections 0%nat true p1 st1) as (pr2 & Hc2 & Hpr2).
    pose proof (processPacket_emitted 0%nat true p1 st1) as He2.
    change (length (store st0)) with 1%nat in *.
    split.
    + rewrite Hc2, Hc1. cbn [connections st0].
      rewrite !filter_app.
      assert (filter (fun r => r = 0%nat) pr1 = []) as ->.
      { destruct Hpr1 as [-> | ->]; reflexivity. }
      assert (filter (fun r => r = 0%nat) pr2 = []) as ->.
      { destruct Hpr2 as [-> | ->]; [reflexivity|].
        rewrite filter_cons_False; [reflexivity | lia]. }
      reflexivity.
    + rewrite He2, He1. reflexivity.
Qed.

End Registration.

Section RegistrationRuns.
#[local] Existing Instance toy_opaque.
#[local] Existing Instance toy_collaborators.

(** The same frame with the toy collaborators. *)
Example two_packets_toy_run :
  exists st',
    handlePacket two_v1_frame NEXParser_new = Some (Returned st') /\
    connections st' = [0%nat; 0%nat] /\
    emitted st' = [EvConnection 0%nat; EvPacket (PacketV1 0%nat v1_packet);
                   EvConnection 0%nat; EvPacket (PacketV1 0%nat v1_packet)] /\
    length (store st') = 1%nat.
Proof. eexists. split; [vm_compute; reflexivity|]. repeat split. Qed.

(** A single packet of a new flow registers the connection once. *)
Example one_packet_toy_run :
  exists st',
    handleUDPPacket {| source := "192.168.0.13"; destination := "52.38.81.235";
                       sourcePort := 59901; destinationPort := 62248;
                       payload := v1_packet |} NEXParser_new = Some (Returned st') /\
    connections st' = [0%nat] /\
    emitted st' = [EvConnection 0%nat; EvPacket (PacketV1 0%nat v1_packet)].
Proof. eexists. split; [vm_compute; reflexivity|]. repeat split. Qed.

(** A v1 packet and then a v0 packet in one datagram: the v0 packet is
    made over the 41 bytes of the payload, and the loop, which goes on two
    bytes after the marker, returns at the bytes that follow. *)
Example v1_then_v0_toy_run :
  exists st',
    handleUDPPacket {| source := "52.38.81.235"; destination := "192.168.0.13";
                       sourcePort := 62248; destinationPort := 59901;
                       payload := v1_then_v0_payload |} NEXParser_new = Some (Returned st') /\
    emitted st' = [EvConnection 0%nat; EvPacket (PacketV1 0%nat v1_packet);
                   EvConnection 0%nat; EvPacket (PacketV0 0%nat v1_then_v0_payload)].
Proof. eexists. split; [vm_compute; reflexivity|]. reflexivity. Qed.

End RegistrationRuns.

(** ** The Service Item dispatcher *)

(** The handler table has the method ids 0x01 to 0x16 and no other. *)
Lemma Handlers_outside (k : Z) :
  k < 1 \/ 22 < k -> ServiceItem.Handlers !! k = None.
Proof.
  intros Hk. unfold ServiceItem.Handlers. cbn [list_to_map foldr uncurry fst snd].
  rewrite !lookup_insert_ne by lia. apply lookup_empty.
Qed.

Lemma Handlers_inside (k : Z) :
  1 <= k <= 22 -> is_Some (ServiceItem.Handlers !! k).
Proof.
  intros Hk.
  assert (Z.to_nat k ∈ seq 1 22) as Hin by (apply elem_of_seq; lia).
  replace k with (Z.of_nat (Z.to_nat k)) by lia.
  revert Hin. generalize (Z.to_nat k). intros n Hn.
  cbn [seq] in Hn.
  repeat (apply elem_of_cons in Hn as [-> | Hn]; [vm_compute; eauto|]).
  by apply elem_of_nil in Hn.
Qed.

Section DispatchProperties.
Context `{ServiceItem.Bodies}.

(** C9. For a method id without handler, [handlePacket] writes the
    unknown-method line to the console and returns: nothing is thrown
    and the packet is as it was, without decoded data attached. For a
    method id with a handler, the handler is called with the message and
    a fresh stream over the message body, and what it returns is
    attached to the packet. The ids with a handler are 0x01 to 0x16. *)
Theorem unknown_method_is_reported_not_raised (packet : ServiceItem.Packet) :
  let rmcMessage := ServiceItem.rmcMessage packet in
  let methodId := ServiceItem.methodId rmcMessage in
  let stream := Stream.new (ServiceItem.body rmcMessage) (Some (ServiceItem.connection packet)) in
  (ServiceItem.property ServiceItem.Handlers methodId = None ->
     ServiceItem.handlePacket packet =
     Normal (packet, [ServiceItem.UnknownMethod methodId
                        (ServiceItem.property ServiceItem.MethodNames methodId)])) /\
  (forall handler,
     ServiceItem.property ServiceItem.Handlers methodId = Some handler ->
     ServiceItem.handlePacket packet =
     match ServiceItem.call handler rmcMessage stream with
     | Normal parsed =>
         Normal ({| ServiceItem.rmcMessage := rmcMessage;
                    ServiceItem.connection := ServiceItem.connection packet;
                    ServiceItem.rmcData := Some parsed |}, [])
     | Throw e => Throw e
     end) /\
  (ServiceItem.property ServiceItem.Handlers methodId = None <->
     forall k, methodId = Some k -> k < 1 \/ 22 < k).
Proof.
  cbv zeta. split; [|split].
  - intros Hnone. unfold ServiceItem.handlePacket. by rewrite Hnone.
  - intros handler Hsome. unfold ServiceItem.handlePacket. by rewrite Hsome.
  - destruct (ServiceItem.methodId (ServiceItem.rmcMessage packet)) as [k|];
      cbn [ServiceItem.property]; [|done].
    split.
    + intros Hnone k' [= <-].
      destruct (decide (1 <= k <= 22)) as [Hk|Hk]; [|lia].
      apply Handlers_inside in Hk as [handler Hk]. congruence.
    + intros Hk. apply Handlers_outside. by apply Hk.
Qed.

End DispatchProperties.

Section DispatchRuns.
#[local] Existing Instance toy_bodies.

(** The method ids 0x17, which has no handler, and 0x16, which has one. *)
Lemma unknown_method_is_reported_not_raised_witness :
  ServiceItem.handlePacket (toy_message 0x17) =
    Normal (toy_message 0x17, [ServiceItem.UnknownMethod (Some 0x17) None]) /\
  ServiceItem.handlePacket (toy_message 0x16) =
    Normal ({| ServiceItem.rmcMessage := ServiceItem.rmcMessage (toy_message 0x16);
               ServiceItem.connection := 0%nat;
               ServiceItem.rmcData := Some (true, 3) |}, []).
Proof.
  pose proof (unknown_method_is_reported_not_raised (toy_message 0x17)) as (Hunknown & _ & _).
  pose proof (unknown_method_is_reported_not_raised (toy_message 0x16)) as (_ & Hknown & _).
  split.
  - apply Hunknown. reflexivity.
  - apply (Hknown ServiceItem.GetLawMessageResponse). reflexivity.
Defined.

End DispatchRuns.

(** * Further properties *)

(** ** Views and reads of the stream *)

(** With indices that are not negative, a view is what [take] and [drop]
    give: the clamping of [subarray] is theirs. *)
Lemma subarray_take_drop (b : Buffer.t) (lo hi : Z) :
  0 <= lo -> 0 <= hi ->
  Buffer.subarray b lo hi = take (Z.to_nat (hi - lo)) (drop (Z.to_nat lo) b).
Proof.
  intros Hlo Hhi. unfold Buffer.subarray, Buffer.relIndex. cbv zeta.
  destruct (Z.ltb_spec lo 0) as [|_]; [lia|].
  destruct (Z.ltb_spec hi 0) as [|_]; [lia|].
  pose proof (buffer_length_nonneg b) as HL. unfold Buffer.length in *.
  destruct (Z.le_ge_cases lo (Z.of_nat (length b))) as [Hle|Hge].
  - rewrite (Z.min_l lo) by done.
    destruct (Z.le_ge_cases hi (Z.of_nat (length b))) as [Hle'|Hge'].
    + by rewrite (Z.min_l hi).
    + rewrite (Z.min_r hi) by done.
      rewrite !take_ge; [done | rewrite length_drop; lia | rewrite length_drop; lia].
  - rewrite (Z.min_r lo) by done.
    rewrite !drop_ge by lia. by rewrite !take_nil.
Qed.

Lemma subarray_length (b : Buffer.t) (lo w : Z) :
  0 <= lo -> 0 <= w ->
  Buffer.length (Buffer.subarray b lo (lo + w)) = Z.min w (Z.max 0 (Buffer.length b - lo)).
Proof.
  intros Hlo Hw. rewrite subarray_take_drop by lia.
  unfold Buffer.length. rewrite length_take, length_drop. lia.
Qed.

(** The view of a part of a buffer, taken at the place of the part. *)
Lemma subarray_app_middle (pre mid post : Buffer.t) :
  Buffer.subarray (pre ++ mid ++ post) (Buffer.length pre)
    (Buffer.length pre + Buffer.length mid) = mid.
Proof.
  pose proof (buffer_length_nonneg pre). pose proof (buffer_length_nonneg mid).
  rewrite subarray_take_drop by lia. unfold Buffer.length.
  rewrite Nat2Z.id, drop_app_length.
  replace (Z.to_nat (Z.of_nat (length pre) + Z.of_nat (length mid) - Z.of_nat (length pre)))
    with (length mid) by lia.
  apply take_app_length.
Qed.

(** X1. [readRest] returns the bytes from the cursor to the end of the
    buffer and leaves the cursor at the end, so that no data is left; from
    a cursor beyond the end it returns nothing and brings the cursor back
    to the end. *)
Theorem readRest_reaches_the_end (s : Stream.t) :
  let L := Buffer.length (Stream._buffer s) in
  exists rest,
    Stream.readRest s = Normal (rest, Stream.set_offset L s) /\
    Stream.hasDataLeft (Stream.set_offset L s) = false /\
    Stream.remaining (Stream.set_offset L s) = 0 /\
    (0 <= Stream._offset s ->
       rest = drop (Z.to_nat (Stream._offset s)) (Stream._buffer s) /\
       Buffer.length rest = Z.max 0 (Stream.remaining s)).
Proof.
  cbv zeta. eexists. split; [|split; [|split]].
  - unfold Stream.readRest, Stream.readBytes, Stream.read, Stream.remaining.
    replace (Stream._offset s + (Buffer.length (Stream._buffer s) - Stream._offset s))
      with (Buffer.length (Stream._buffer s)) by lia.
    reflexivity.
  - unfold Stream.hasDataLeft. simpl. apply Z.ltb_irrefl.
  - unfold Stream.remaining. simpl. lia.
  - intros Hoff. pose proof (buffer_length_nonneg (Stream._buffer s)) as HL.
    rewrite subarray_take_drop by lia.
    assert (take (Z.to_nat (Buffer.length (Stream._buffer s) - Stream._offset s))
                 (drop (Z.to_nat (Stream._offset s)) (Stream._buffer s))
            = drop (Z.to_nat (Stream._offset s)) (Stream._buffer s)) as ->.
    { apply take_ge. rewrite length_drop. unfold Buffer.length. lia. }
    split; [done|].
    unfold Stream.remaining, Buffer.length. rewrite length_drop. lia.
Qed.

Lemma readRest_reaches_the_end_witness :
  Stream.readRest (Stream.mk None v0_bytes 9) = Normal ([x00; x00], Stream.mk None v0_bytes 11) /\
  Stream.hasDataLeft (Stream.mk None v0_bytes 11) = false.
Proof.
  destruct (readRest_reaches_the_end (Stream.mk None v0_bytes 9))
    as (rest & Hread & Hleft & _ & Hrest).
  destruct Hrest as [-> _]; [vm_compute; discriminate|].
  split; [exact Hread | exact Hleft].
Defined.

(** X2. Two reads in a row return, one after the other, what a single read
    of the two lengths returns, and leave the stream where it leaves it. *)
Theorem reads_in_a_row_concatenate (s s1 s2 : Stream.t) (a b : Z) (x y : Buffer.t) :
  0 <= Stream._offset s -> 0 <= a -> 0 <= b ->
  Stream.read a s = Normal (x, s1) ->
  Stream.read b s1 = Normal (y, s2) ->
  Stream.read (a + b) s = Normal (x ++ y, s2).
Proof.
  intros Hoff Ha Hb. unfold Stream.read.
  intros [= <- <-]. cbn [Stream._offset Stream._buffer Stream.set_offset].
  intros [= <- <-].
  rewrite !subarray_take_drop by lia.
  unfold Stream.set_offset. cbn [Stream._offset Stream._buffer Stream.connection].
  f_equal. f_equal.
  - replace (Z.to_nat (Stream._offset s + (a + b) - Stream._offset s))
      with (Z.to_nat a + Z.to_nat b)%nat by lia.
    replace (Z.to_nat (Stream._offset s + a - Stream._offset s)) with (Z.to_nat a) by lia.
    replace (Z.to_nat (Stream._offset s + a + b - (Stream._offset s + a)))
      with (Z.to_nat b) by lia.
    replace (Z.to_nat (Stream._offset s + a))
      with (Z.to_nat (Stream._offset s) + Z.to_nat a)%nat by lia.
    rewrite <- drop_drop. by rewrite take_take_drop.
  - f_equal. lia.
Qed.

Lemma reads_in_a_row_concatenate_witness :
  Stream.read (2 + 3) (Stream.mk None v0_bytes 1) =
    Normal ([xa1; x00] ++ [x00; x00; x00], Stream.mk None v0_bytes 6).
Proof.
  apply (reads_in_a_row_concatenate _ (Stream.mk None v0_bytes 3)); [simpl; lia | lia | lia | reflexivity | reflexivity].
Defined.

(** ** Fixed-width and length-prefixed reads *)

Lemma view_of_width (b : Buffer.t) (off w : Z) :
  0 <= off -> 0 <= w -> off + w <= Buffer.length b ->
  length (Buffer.subarray b off (off + w)) = Z.to_nat w.
Proof.
  intros Hoff Hw Hin. pose proof (subarray_length b off w Hoff Hw) as Hlen.
  unfold Buffer.length in *. lia.
Qed.

Lemma view_too_short (b : Buffer.t) (off w : Z) :
  0 <= off -> 0 < w -> Buffer.length b < off + w ->
  (length (Buffer.subarray b off (off + w)) < Z.to_nat w)%nat.
Proof.
  intros Hoff Hw Hin. pose proof (subarray_length b off w Hoff ltac:(lia)) as Hlen.
  unfold Buffer.length in *. lia.
Qed.

Ltac by_width Hlen :=
  match type of Hlen with
  | context [length ?l] =>
      destruct l; simpl length in Hlen; [| first [lia | by_width Hlen]]
  end.

(** X3. With a cursor that is not negative, a fixed-width
    read returns exactly when as many bytes as its width remain: then the
    value is within the range of the width and the cursor moves by the
    width; otherwise it throws a RangeError. *)
Theorem fixed_width_reads_need_their_bytes (s : Stream.t) :
  0 <= Stream._offset s ->
  Forall (fun '(reader, w) =>
            if Stream._offset s + w <=? Buffer.length (Stream._buffer s) then
              exists v, reader s = Normal (v, Stream.set_offset (Stream._offset s + w) s) /\
                        0 <= v < 2 ^ (8 * w)
            else reader s = Throw RangeError)
    [ (Stream.readUInt8, 1); (Stream.readUInt16BE, 2); (Stream.readUInt16LE, 2);
      (Stream.readUInt32BE, 4); (NEXStream.readUInt32LE, 4) ].
Proof.
  intros Hoff.
  repeat apply Forall_cons_2; [..|apply Forall_nil_2];
    (cbv beta iota;
     match goal with
     | |- context [?o + ?w <=? ?b] =>
         destruct (Z.leb_spec (o + w) b) as [Hin|Hout];
         [ assert (0 <= w) as Hw by lia;
           pose proof (view_of_width _ _ _ Hoff Hw Hin) as Hlen
         | assert (0 < w) as Hw by lia;
           pose proof (view_too_short _ _ _ Hoff Hw Hout) as Hlen ]
     end;
     unfold Stream.readUInt8, Stream.readUInt16BE, Stream.readUInt16LE, Stream.readUInt32BE,
       NEXStream.readUInt32LE, Stream.bind, Stream.readBytes, Stream.read, Stream.lift;
     by_width Hlen; try lia; simpl; try done).
  - eexists. split; [reflexivity|]. change (8 * 1) with 8; change (8 * 2) with 16; change (8 * 4) with 32. apply u8_range.
  - eexists. split; [reflexivity|]. change (8 * 1) with 8; change (8 * 2) with 16; change (8 * 4) with 32. pose proof (u8_range b). pose proof (u8_range b0). lia.
  - eexists. split; [reflexivity|]. change (8 * 1) with 8; change (8 * 2) with 16; change (8 * 4) with 32. pose proof (u8_range b). pose proof (u8_range b0). lia.
  - eexists. split; [reflexivity|]. change (8 * 1) with 8; change (8 * 2) with 16; change (8 * 4) with 32.
    pose proof (u8_range b). pose proof (u8_range b0).
    pose proof (u8_range b1). pose proof (u8_range b2). lia.
  - eexists. split; [reflexivity|]. change (8 * 1) with 8; change (8 * 2) with 16; change (8 * 4) with 32.
    pose proof (u8_range b). pose proof (u8_range b0).
    pose proof (u8_range b1). pose proof (u8_range b2). lia.
Qed.

Lemma fixed_width_reads_need_their_bytes_witness :
  (exists v, Stream.readUInt16LE (Stream.mk None v0_bytes 0) =
               Normal (v, Stream.mk None v0_bytes 2)) /\
  Stream.readUInt32BE (Stream.mk None v0_bytes 8) = Throw RangeError.
Proof.
  pose proof (fixed_width_reads_need_their_bytes (Stream.mk None v0_bytes 0)) as H0.
  pose proof (fixed_width_reads_need_their_bytes (Stream.mk None v0_bytes 8)) as H8.
  split.
  - assert (0 <= 0) as Hoff by lia. specialize (H0 Hoff).
    apply Forall_cons_1 in H0 as [_ H0]. apply Forall_cons_1 in H0 as [_ H0].
    apply Forall_cons_1 in H0 as [H0 _].
    destruct H0 as (v & Hv & _). exists v. exact Hv.
  - assert (0 <= 8) as Hoff by lia. specialize (H8 Hoff).
    apply Forall_cons_1 in H8 as [_ H8]. apply Forall_cons_1 in H8 as [_ H8].
    apply Forall_cons_1 in H8 as [_ H8]. apply Forall_cons_1 in H8 as [H8 _].
    exact H8.
Defined.

Lemma u8_byteOf (n : Z) : Buffer.u8 (byteOf n) = n mod 256.
Proof.
  unfold byteOf, Buffer.u8.
  assert (0 <= n mod 256 < 256) as Hn by (apply Z.mod_pos_bound; lia).
  destruct (Byte.of_N (Z.to_N (n mod 256))) as [y|] eqn:Hy; simpl.
  - apply Byte.to_of_N in Hy. rewrite Hy. lia.
  - apply Byte.of_N_None_iff in Hy. lia.
Qed.

Lemma readUInt16LE_uint16LE (n : Z) (rest : Buffer.t) :
  0 <= n < 2 ^ 16 -> Buffer.readUInt16LE (uint16LE n ++ rest) = Normal n.
Proof.
  intros Hn. unfold uint16LE. cbn [app Buffer.readUInt16LE]. rewrite !u8_byteOf. f_equal.
  change (2 ^ 16) with 65536 in Hn. change (2 ^ 8) with 256.
  assert (0 <= n / 256 < 256) as H1
    by (split; [apply Z.div_pos; lia | apply Z.div_lt_upper_bound; lia]).
  rewrite (Z.mod_small (n / 256)) by done.
  pose proof (Z.div_mod n 256 ltac:(lia)). lia.
Qed.

Lemma readUInt32LE_uint32LE (n : Z) (rest : Buffer.t) :
  0 <= n < 2 ^ 32 -> NEXStream.Buffer_readUInt32LE (uint32LE n ++ rest) = Normal n.
Proof.
  intros Hn. unfold uint32LE. cbn [app NEXStream.Buffer_readUInt32LE].
  rewrite !u8_byteOf. f_equal.
  change (2 ^ 32) with 4294967296 in Hn.
  change (2 ^ 8) with 256. change (2 ^ 16) with (256 * 256).
  change (2 ^ 24) with (256 * 256 * 256).
  rewrite <- !Z.div_div by lia.
  pose proof (Z.div_mod n 256 ltac:(lia)) as H0.
  pose proof (Z.div_mod (n / 256) 256 ltac:(lia)) as H1.
  pose proof (Z.div_mod (n / 256 / 256) 256 ltac:(lia)) as H2.
  assert (0 <= n / 256 / 256 / 256 < 256) as H3.
  { rewrite !Z.div_div by lia.
    split; [apply Z.div_pos; lia | apply Z.div_lt_upper_bound; lia]. }
  rewrite (Z.mod_small (n / 256 / 256 / 256)) by done.
  lia.
Qed.

(** A read of a part of the buffer from the place of the part. *)
Lemma readBytes_part (cn : option nat) (pre mid post : Buffer.t) :
  Stream.readBytes (Buffer.length mid)
    (Stream.mk cn (pre ++ mid ++ post) (Buffer.length pre)) =
  Normal (mid, Stream.mk cn (pre ++ mid ++ post) (Buffer.length pre + Buffer.length mid)).
Proof.
  unfold Stream.readBytes, Stream.read. cbn [Stream._offset Stream._buffer].
  by rewrite subarray_app_middle.
Qed.

(** A read that asks for more than the buffer has left returns the rest. *)
Lemma readBytes_rest (cn : option nat) (pre rest : Buffer.t) (n : Z) :
  Buffer.length rest <= n ->
  Stream.readBytes n (Stream.mk cn (pre ++ rest) (Buffer.length pre)) =
  Normal (rest, Stream.mk cn (pre ++ rest) (Buffer.length pre + n)).
Proof.
  intros Hn. unfold Stream.readBytes, Stream.read. cbn [Stream._offset Stream._buffer].
  pose proof (buffer_length_nonneg pre). pose proof (buffer_length_nonneg rest).
  rewrite subarray_take_drop by lia. unfold Buffer.length in *.
  rewrite Nat2Z.id, drop_app_length, take_ge by lia. done.
Qed.

Lemma readUInt16LE_part (cn : option nat) (pre post : Buffer.t) (n : Z) :
  0 <= n < 2 ^ 16 ->
  Stream.readUInt16LE (Stream.mk cn (pre ++ uint16LE n ++ post) (Buffer.length pre)) =
  Normal (n, Stream.mk cn (pre ++ uint16LE n ++ post) (Buffer.length pre + 2)).
Proof.
  intros Hn. unfold Stream.readUInt16LE, Stream.bind.
  change 2 with (Buffer.length (uint16LE n)) at 1.
  rewrite readBytes_part. unfold Stream.lift.
  rewrite <- (app_nil_r (uint16LE n)), readUInt16LE_uint16LE by done. done.
Qed.

Lemma readUInt32LE_part (cn : option nat) (pre post : Buffer.t) (n : Z) :
  0 <= n < 2 ^ 32 ->
  NEXStream.readUInt32LE (Stream.mk cn (pre ++ uint32LE n ++ post) (Buffer.length pre)) =
  Normal (n, Stream.mk cn (pre ++ uint32LE n ++ post) (Buffer.length pre + 4)).
Proof.
  intros Hn. unfold NEXStream.readUInt32LE, Stream.bind.
  change 4 with (Buffer.length (uint32LE n)) at 1.
  rewrite readBytes_part. unfold Stream.lift.
  rewrite <- (app_nil_r (uint32LE n)), readUInt32LE_uint32LE by done. done.
Qed.

Lemma length_app_Z (a b : Buffer.t) :
  Buffer.length (a ++ b) = Buffer.length a + Buffer.length b.
Proof. unfold Buffer.length. rewrite length_app. lia. Qed.

(** X4. A buffer laid out as its length, little-endian on 2 bytes (qBuffer)
    or on 4 bytes (Buffer), and then its bytes is read back as it was,
    wherever it lies in the stream, and the cursor ends on the byte after
    it. A length that goes beyond the end of the stream is no error: the
    bytes that are there are returned and the cursor ends beyond the
    end. *)
Theorem length_prefixed_buffers_read_back (cn : option nat) (pre data post : Buffer.t) (n : Z) :
  let qb := pre ++ uint16LE (Buffer.length data) ++ data ++ post in
  let b := pre ++ uint32LE (Buffer.length data) ++ data ++ post in
  (Buffer.length data < 2 ^ 16 ->
     NEXStream.readNEXQBuffer (Stream.mk cn qb (Buffer.length pre)) =
     Normal (data, Stream.mk cn qb (Buffer.length pre + 2 + Buffer.length data))) /\
  (Buffer.length data < 2 ^ 32 ->
     NEXStream.readNEXBuffer (Stream.mk cn b (Buffer.length pre)) =
     Normal (data, Stream.mk cn b (Buffer.length pre + 4 + Buffer.length data))) /\
  (Buffer.length data <= n < 2 ^ 16 ->
     NEXStream.readNEXQBuffer (Stream.mk cn (pre ++ uint16LE n ++ data) (Buffer.length pre)) =
     Normal (data, Stream.mk cn (pre ++ uint16LE n ++ data) (Buffer.length pre + 2 + n))) /\
  (Buffer.length data <= n < 2 ^ 32 ->
     NEXStream.readNEXBuffer (Stream.mk cn (pre ++ uint32LE n ++ data) (Buffer.length pre)) =
     Normal (data, Stream.mk cn (pre ++ uint32LE n ++ data) (Buffer.length pre + 4 + n))).
Proof.
  cbv zeta. pose proof (buffer_length_nonneg data) as Hdata.
  unfold NEXStream.readNEXQBuffer, NEXStream.readNEXBuffer, mbind, stream_bind, Stream.bind.
  split; [|split; [|split]]; intros Hn.
  - rewrite readUInt16LE_part by lia.
    change (Buffer.length pre + 2) with (Buffer.length pre + Buffer.length (uint16LE (Buffer.length data))).
    rewrite <- length_app_Z.
    rewrite (app_assoc pre (uint16LE _)). by rewrite readBytes_part.
  - rewrite readUInt32LE_part by lia.
    change (Buffer.length pre + 4) with (Buffer.length pre + Buffer.length (uint32LE (Buffer.length data))).
    rewrite <- length_app_Z.
    rewrite (app_assoc pre (uint32LE _)). by rewrite readBytes_part.
  - rewrite readUInt16LE_part by lia.
    change (Buffer.length pre + 2) with (Buffer.length pre + Buffer.length (uint16LE n)).
    rewrite <- length_app_Z.
    rewrite (app_assoc pre (uint16LE _)). by rewrite readBytes_rest by lia.
  - rewrite readUInt32LE_part by lia.
    change (Buffer.length pre + 4) with (Buffer.length pre + Buffer.length (uint32LE n)).
    rewrite <- length_app_Z.
    rewrite (app_assoc pre (uint32LE _)). by rewrite readBytes_rest by lia.
Qed.

Lemma length_prefixed_buffers_read_back_witness :
  NEXStream.readNEXQBuffer (Stream.mk None ([x07] ++ [x03; x00] ++ [x0a; x0b; x0c] ++ [xff]) 1) =
    Normal ([x0a; x0b; x0c], Stream.mk None ([x07] ++ [x03; x00] ++ [x0a; x0b; x0c] ++ [xff]) 6) /\
  NEXStream.readNEXBuffer (Stream.mk None ([x07] ++ [x09; x00; x00; x00] ++ [x0a; x0b]) 1) =
    Normal ([x0a; x0b], Stream.mk None ([x07] ++ [x09; x00; x00; x00] ++ [x0a; x0b]) 14).
Proof.
  pose proof (length_prefixed_buffers_read_back None [x07] [x0a; x0b; x0c] [xff] 3)
    as (Hq & _ & _ & _).
  pose proof (length_prefixed_buffers_read_back None [x07] [x0a; x0b] [] 9)
    as (_ & _ & _ & Hb).
  split.
  - apply Hq. vm_compute. reflexivity.
  - apply Hb. vm_compute. split; [discriminate | reflexivity].
Defined.

Lemma readUInt8_next (cn : option nat) (B : Buffer.t) (o : Z) (x : byte) (rest : Buffer.t) :
  0 <= o -> drop (Z.to_nat o) B = x :: rest ->
  Stream.readUInt8 (Stream.mk cn B o) = Normal (Buffer.u8 x, Stream.mk cn B (o + 1)) /\
  drop (Z.to_nat (o + 1)) B = rest.
Proof.
  intros Ho Hdrop. split.
  - unfold Stream.readUInt8, Stream.bind, Stream.readBytes, Stream.read, Stream.lift.
    cbn [Stream._offset Stream._buffer].
    rewrite subarray_take_drop, Hdrop by lia.
    replace (Z.to_nat (o + 1 - o)) with 1%nat by lia. done.
  - replace (Z.to_nat (o + 1)) with (Z.to_nat o + 1)%nat by lia.
    by rewrite <- drop_drop, Hdrop.
Qed.

Lemma readUInt8_at_end (cn : option nat) (B : Buffer.t) (o : Z) :
  0 <= o -> drop (Z.to_nat o) B = [] ->
  Stream.readUInt8 (Stream.mk cn B o) = Throw RangeError.
Proof.
  intros Ho Hdrop.
  unfold Stream.readUInt8, Stream.bind, Stream.readBytes, Stream.read, Stream.lift.
  cbn [Stream._offset Stream._buffer].
  rewrite subarray_take_drop, Hdrop by lia. by rewrite take_nil.
Qed.

Lemma readNEXList_loop_bytes (cn : option nat) (B : Buffer.t) (items post : Buffer.t) :
  forall (pushed : list Z) (o : Z),
    0 <= o -> drop (Z.to_nat o) B = items ++ post ->
    NEXStream.readNEXList_loop (length items) Stream.readUInt8 pushed (Stream.mk cn B o) =
    Normal (pushed ++ (Buffer.u8 <$> items), Stream.mk cn B (o + Buffer.length items)).
Proof.
  induction items as [|x items IH]; intros pushed o Ho Hdrop.
  - simpl. unfold mret, stream_ret, Stream.ret. rewrite app_nil_r.
    unfold Buffer.length. simpl. by rewrite Z.add_0_r.
  - destruct (readUInt8_next cn B o x (items ++ post) Ho Hdrop) as [Hread Hdrop'].
    cbn [length NEXStream.readNEXList_loop]. unfold mbind, stream_bind, Stream.bind.
    rewrite Hread. rewrite IH by (done || lia).
    rewrite <- app_assoc. cbn [fmap list_fmap app]. do 3 f_equal.
    unfold Buffer.length. cbn [length]. lia.
Qed.

Lemma readNEXList_loop_short (cn : option nat) (B : Buffer.t) (items : Buffer.t) :
  forall (n : nat) (pushed : list Z) (o : Z),
    0 <= o -> drop (Z.to_nat o) B = items -> (length items < n)%nat ->
    NEXStream.readNEXList_loop n Stream.readUInt8 pushed (Stream.mk cn B o) = Throw RangeError.
Proof.
  induction items as [|x items IH]; intros n pushed o Ho Hdrop Hn;
    (destruct n as [|n]; [simpl in Hn; lia|]);
    cbn [NEXStream.readNEXList_loop]; unfold mbind, stream_bind, Stream.bind.
  - by rewrite readUInt8_at_end.
  - destruct (readUInt8_next cn B o x items Ho Hdrop) as [Hread Hdrop'].
    rewrite Hread. apply IH; [lia | done | simpl in Hn; lia].
Qed.

Lemma drop_to_part (pre part : Buffer.t) (k : Z) :
  k = Buffer.length pre -> drop (Z.to_nat k) (pre ++ part) = part.
Proof. intros ->. unfold Buffer.length. by rewrite Nat2Z.id, drop_app_length. Qed.

(** X5. A list of bytes laid out as its count, little-endian on 4 bytes,
    and then its elements is read back by [readNEXList] with [readUInt8]
    as element reader, and the cursor ends after the last element. When
    the count announces more elements than the stream has bytes left, the
    read of the first element that is missing throws a RangeError. *)
Theorem byte_lists_read_back (cn : option nat) (pre items post : Buffer.t) (n : Z) :
  let b := pre ++ uint32LE (Buffer.length items) ++ items ++ post in
  (Buffer.length items < 2 ^ 32 ->
     NEXStream.readNEXList Stream.readUInt8 (Stream.mk cn b (Buffer.length pre)) =
     Normal (Buffer.u8 <$> items, Stream.mk cn b (Buffer.length pre + 4 + Buffer.length items))) /\
  (Buffer.length items < n < 2 ^ 32 ->
     NEXStream.readNEXList Stream.readUInt8
       (Stream.mk cn (pre ++ uint32LE n ++ items) (Buffer.length pre)) = Throw RangeError).
Proof.
  cbv zeta. pose proof (buffer_length_nonneg items) as Hitems.
  pose proof (buffer_length_nonneg pre) as Hpre.
  unfold NEXStream.readNEXList, mbind, stream_bind, Stream.bind.
  split; intros Hn.
  - rewrite readUInt32LE_part by lia.
    replace (Z.to_nat (Buffer.length items)) with (length items)
      by (unfold Buffer.length; lia).
    rewrite (readNEXList_loop_bytes cn _ items post); [done | lia |].
    rewrite (app_assoc pre). apply drop_to_part. by rewrite length_app_Z.
  - rewrite readUInt32LE_part by lia.
    apply (readNEXList_loop_short cn _ items); [lia | | unfold Buffer.length in *; lia].
    rewrite (app_assoc pre). apply drop_to_part. by rewrite length_app_Z.
Qed.

Lemma byte_lists_read_back_witness :
  NEXStream.readNEXList Stream.readUInt8
    (Stream.mk None ([x07] ++ [x02; x00; x00; x00] ++ [x0a; x0b] ++ [xff]) 1) =
    Normal ([10; 11], Stream.mk None ([x07] ++ [x02; x00; x00; x00] ++ [x0a; x0b] ++ [xff]) 7) /\
  NEXStream.readNEXList Stream.readUInt8
    (Stream.mk None ([x07] ++ [x03; x00; x00; x00] ++ [x0a; x0b]) 1) = Throw RangeError.
Proof.
  pose proof (byte_lists_read_back None [x07] [x0a; x0b] [xff] 3) as [Hok Hshort].
  split.
  - apply Hok. vm_compute. reflexivity.
  - apply Hshort. vm_compute. split; reflexivity.
Defined.

Lemma unconsumed_drop (s : Stream.t) :
  0 <= Stream._offset s ->
  unconsumed s = drop (Z.to_nat (Stream._offset s)) (Stream._buffer s).
Proof.
  intros Hoff. unfold unconsumed, Stream.readRest, Stream.readBytes, Stream.read, Stream.remaining.
  pose proof (buffer_length_nonneg (Stream._buffer s)) as HL.
  rewrite subarray_take_drop by lia.
  apply take_ge. rewrite length_drop. unfold Buffer.length in *. lia.
Qed.

Section Strings.
Context `{NEXStream.Text}.

(** UTF-8 decodes a byte below 128 to the code unit of the same value. *)
Hypothesis ascii_decoded :
  forall b : Buffer.t,
    Forall (fun x => Buffer.u8 x < 128) b -> NEXStream.toString b = (Buffer.u8 <$> b).

Lemma u8_x00 : Buffer.u8 x00 = 0.
Proof. reflexivity. Qed.

Lemma terminated_text_without_NUL (text : Buffer.t) (k : nat) :
  Forall (fun x => 0 < Buffer.u8 x < 128) text ->
  filter (fun unit => unit <> 0) (NEXStream.toString (text ++ replicate k x00)) =
  (Buffer.u8 <$> text).
Proof.
  intros Htext. rewrite ascii_decoded.
  - rewrite fmap_app, filter_app.
    assert (filter (fun unit => unit <> 0) (Buffer.u8 <$> replicate k x00) = []) as ->.
    { induction k as [|k IH]; [done|]. simpl. rewrite filter_cons_False; [done|].
      intros Hne. by apply Hne. }
    rewrite app_nil_r.
    induction Htext as [|x text Hx Htext IH]; [done|].
    cbn [fmap list_fmap]. rewrite filter_cons_True by lia. by rewrite IH.
  - apply Forall_app. split.
    + eapply Forall_impl; [exact Htext|]. simpl. lia.
    + apply Forall_replicate. rewrite u8_x00. lia.
Qed.

Lemma readNEXString_ascii (cn : option nat) (pre text post : Buffer.t) (k : nat) :
  let body := text ++ replicate k x00 in
  let b := pre ++ uint16LE (Buffer.length body) ++ body ++ post in
  Forall (fun x => 0 < Buffer.u8 x < 128) text ->
  Buffer.length body < 2 ^ 16 ->
  NEXStream.readNEXString (Stream.mk cn b (Buffer.length pre)) =
  Normal (Buffer.u8 <$> text, Stream.mk cn b (Buffer.length pre + 2 + Buffer.length body)).
Proof.
  cbv zeta. intros Htext Hlen.
  pose proof (buffer_length_nonneg (text ++ replicate k x00)) as Hbody.
  unfold NEXStream.readNEXString, mbind, stream_bind, Stream.bind.
  rewrite readUInt16LE_part by lia.
  change (Buffer.length pre + 2)
    with (Buffer.length pre + Buffer.length (uint16LE (Buffer.length (text ++ replicate k x00)))).
  rewrite <- length_app_Z. rewrite (app_assoc pre (uint16LE _)).
  rewrite readBytes_part. unfold mret, stream_ret, Stream.ret.
  by rewrite terminated_text_without_NUL.
Qed.

(** X6. A NEX string laid out as its length, little-endian on 2 bytes, then
    ASCII text and its NUL terminators is read back as the text, without
    the terminators, and the cursor ends after the last byte that the
    length counts. *)
Theorem NEX_strings_read_back_without_terminator (cn : option nat)
    (pre text post : Buffer.t) (k : nat) :
  let body := text ++ replicate k x00 in
  let b := pre ++ uint16LE (Buffer.length body) ++ body ++ post in
  Forall (fun x => 0 < Buffer.u8 x < 128) text ->
  Buffer.length body < 2 ^ 16 ->
  exists s',
    NEXStream.readNEXString (Stream.mk cn b (Buffer.length pre)) =
      Normal (Buffer.u8 <$> text, s') /\
    Stream._offset s' = Buffer.length pre + 2 + Buffer.length text + Z.of_nat k /\
    Stream._buffer s' = b /\
    unconsumed s' = post.
Proof.
  cbv zeta. intros Htext Hlen. eexists. split; [by apply readNEXString_ascii|].
  cbn [Stream._offset Stream._buffer].
  split; [rewrite length_app_Z; unfold Buffer.length; rewrite length_replicate; lia|].
  split; [done|].
  pose proof (buffer_length_nonneg pre). pose proof (buffer_length_nonneg post).
  pose proof (buffer_length_nonneg (text ++ replicate k x00)).
  rewrite unconsumed_drop by (cbn [Stream._offset]; lia).
  cbn [Stream._offset Stream._buffer].
  rewrite (app_assoc pre), (app_assoc (pre ++ _)).
  apply drop_to_part. rewrite !length_app_Z. done.
Qed.

(** X7. The response to GetRivToken over a body that is such a string has
    the text as token, has consumed the body, and its JSON form has the one
    field [pRivToken], typed String, with the text as value. *)
Theorem GetRivTokenResponse_holds_the_token (cn : option nat) (text : Buffer.t) (k : nat) :
  let body := text ++ replicate k x00 in
  let b := uint16LE (Buffer.length body) ++ body in
  Forall (fun x => 0 < Buffer.u8 x < 128) text ->
  Buffer.length body < 2 ^ 16 ->
  exists response s',
    ShopBadgeArcade.GetRivTokenResponse_new (Stream.new b cn) = Normal (response, s') /\
    ShopBadgeArcade.pRivToken response = (Buffer.u8 <$> text) /\
    ShopBadgeArcade.GetRivTokenResponse_toJSON response =
      [("pRivToken", ("String", Buffer.u8 <$> text))] /\
    Stream.hasDataLeft s' = false.
Proof.
  cbv zeta. intros Htext Hlen.
  pose proof (readNEXString_ascii cn [] text [] k Htext Hlen) as Hread.
  cbv zeta in Hread. rewrite !app_nil_r in Hread. cbn [app] in Hread.
  unfold ShopBadgeArcade.GetRivTokenResponse_new, mbind, stream_bind, Stream.bind.
  change (Buffer.length []) with 0 in Hread. unfold Stream.new.
  rewrite Hread. unfold mret, stream_ret, Stream.ret.
  eexists _, _. split; [done|]. split; [done|]. split; [done|].
  unfold Stream.hasDataLeft. cbn [Stream._offset Stream._buffer].
  apply Z.ltb_ge. rewrite length_app_Z. change (Buffer.length (uint16LE _)) with 2. lia.
Qed.

End Strings.

Section StringRuns.
#[local] Existing Instance toy_text.

(** The string "hi", with its terminator, after one byte of something
    else. *)
Lemma NEX_strings_read_back_without_terminator_witness :
  exists s',
    NEXStream.readNEXString (Stream.mk None ([x07] ++ [x03; x00] ++ [x68; x69; x00] ++ [xff]) 1) =
      Normal ([104; 105], s') /\
    Stream._offset s' = 6.
Proof.
  assert (forall b : Buffer.t, Forall (fun x => Buffer.u8 x < 128) b ->
            NEXStream.toString b = (Buffer.u8 <$> b)) as Hascii by (intros; reflexivity).
  destruct (NEX_strings_read_back_without_terminator Hascii None
    [x07] [x68; x69] [xff] 1) as (s' & Hread & Hoff & _).
  - repeat constructor.
  - vm_compute. reflexivity.
  - exists s'. split; [exact Hread | exact Hoff].
Defined.

Lemma GetRivTokenResponse_holds_the_token_witness :
  exists response s',
    ShopBadgeArcade.GetRivTokenResponse_new (Stream.new [x03; x00; x68; x69; x00] None) =
      Normal (response, s') /\
    ShopBadgeArcade.GetRivTokenResponse_toJSON response = [("pRivToken", ("String", [104; 105]))].
Proof.
  assert (forall b : Buffer.t, Forall (fun x => Buffer.u8 x < 128) b ->
            NEXStream.toString b = (Buffer.u8 <$> b)) as Hascii by (intros; reflexivity).
  destruct (GetRivTokenResponse_holds_the_token Hascii None
    [x68; x69] 1) as (response & s' & Hnew & _ & Hjson & _).
  - repeat constructor.
  - vm_compute. reflexivity.
  - exists response, s'. split; [exact Hnew | exact Hjson].
Defined.

End StringRuns.

(** ** The frame extractor *)

Lemma ToInt32_byte (n k : Z) :
  0 <= n < 2 ^ 32 -> 0 <= k <= 24 ->
  Z.land (Z.shiftr (ToInt32 n) k) 255 = (n / 2 ^ k) mod 256.
Proof.
  intros Hn Hk. change 255 with (Z.ones 8). rewrite Z.land_ones by lia.
  rewrite Z.shiftr_div_pow2 by lia. change (2 ^ 8) with 256.
  unfold ToInt32. rewrite (Z.mod_small n (2 ^ 32)) by done. cbv zeta.
  destruct (Z.ltb_spec n (2 ^ 31)); [done|].
  assert (2 ^ 32 = 2 ^ (24 - k) * 256 * 2 ^ k) as E.
  { rewrite <- Z.mul_assoc, (Z.mul_comm 256), Z.mul_assoc, <- Z.pow_add_r by lia.
    replace (24 - k + k) with 24 by lia. reflexivity. }
  replace (n - 2 ^ 32) with (n + (- (2 ^ (24 - k) * 256)) * 2 ^ k) by lia.
  rewrite Z.div_add by (apply Z.pow_nonzero; lia).
  replace (n / 2 ^ k + - (2 ^ (24 - k) * 256)) with (n / 2 ^ k + (- 2 ^ (24 - k)) * 256) by lia.
  apply Z.mod_add. lia.
Qed.

(** X8. The address that [int2ip] renders for the 32 bits read big-endian
    from four bytes is the dotted quad of the four bytes, in their order,
    also when the first byte is 128 or more and the signed shifts see a
    negative number. *)
Theorem int2ip_is_the_dotted_quad (a b c d : byte) (rest : Buffer.t) :
  exists int,
    Buffer.readUInt32BE (a :: b :: c :: d :: rest) = Normal int /\
    int2ip int =
      pretty (Buffer.u8 a) +:+ "." +:+ pretty (Buffer.u8 b) +:+ "." +:+
      pretty (Buffer.u8 c) +:+ "." +:+ pretty (Buffer.u8 d).
Proof.
  eexists. split; [reflexivity|].
  pose proof (u8_range a) as Ha. pose proof (u8_range b) as Hb.
  pose proof (u8_range c) as Hc. pose proof (u8_range d) as Hd.
  set (n := Buffer.u8 a * 2 ^ 24 + Buffer.u8 b * 2 ^ 16 + Buffer.u8 c * 2 ^ 8 + Buffer.u8 d).
  assert (0 <= n < 2 ^ 32) as Hn by (unfold n; lia).
  unfold int2ip.
  rewrite (ToInt32_byte n 16), (ToInt32_byte n 8) by lia.
  replace (Z.land (ToInt32 n) 255) with (Z.land (Z.shiftr (ToInt32 n) 0) 255)
    by (by rewrite Z.shiftr_0_r).
  rewrite (ToInt32_byte n 0) by lia.
  unfold ToUint32. rewrite (Z.mod_small n) by done.
  rewrite Z.shiftr_div_pow2 by lia.
  assert (n / 2 ^ 24 = Buffer.u8 a) as ->.
  { symmetry. apply (Z.div_unique n (2 ^ 24) _
      (Buffer.u8 b * 2 ^ 16 + Buffer.u8 c * 2 ^ 8 + Buffer.u8 d)); unfold n; lia. }
  assert ((n / 2 ^ 16) mod 256 = Buffer.u8 b) as ->.
  { assert (n / 2 ^ 16 = Buffer.u8 a * 256 + Buffer.u8 b) as ->.
    { symmetry. apply (Z.div_unique n (2 ^ 16) _ (Buffer.u8 c * 2 ^ 8 + Buffer.u8 d));
        unfold n; lia. }
    rewrite Z.add_comm, Z.mod_add by lia. by apply Z.mod_small. }
  assert ((n / 2 ^ 8) mod 256 = Buffer.u8 c) as ->.
  { assert (n / 2 ^ 8 = (Buffer.u8 a * 2 ^ 8 + Buffer.u8 b) * 256 + Buffer.u8 c) as ->.
    { symmetry. apply (Z.div_unique n (2 ^ 8) _ (Buffer.u8 d)); unfold n; lia. }
    rewrite Z.add_comm, Z.mod_add by lia. by apply Z.mod_small. }
  assert ((n / 2 ^ 0) mod 256 = Buffer.u8 d) as ->.
  { change (2 ^ 0) with 1. rewrite Z.div_1_r.
    replace n with (Buffer.u8 d + (Buffer.u8 a * 2 ^ 16 + Buffer.u8 b * 2 ^ 8 + Buffer.u8 c) * 256)
      by (unfold n; lia).
    rewrite Z.mod_add by lia. by apply Z.mod_small. }
  done.
Qed.

(** [parseUDPPacket] with its reads spelled out as views of the frame at
    their fixed places. *)
Lemma parseUDPPacket_views (frame : Buffer.t) :
  parseUDPPacket frame =
  if Buffer.equals (Buffer.subarray frame 17 20) XID_MAGIC then Normal None
  else
    match Buffer.readUInt8 (Buffer.subarray frame 23 24) with
    | Throw e => Throw e
    | Normal protocol =>
        if negb (protocol =? 0x11) then Normal None
        else
          match Buffer.readUInt32BE (Buffer.subarray frame 26 30) with
          | Throw e => Throw e
          | Normal sourceInt =>
          match Buffer.readUInt32BE (Buffer.subarray frame 30 34) with
          | Throw e => Throw e
          | Normal destinationInt =>
          match Buffer.readUInt16BE (Buffer.subarray frame 34 36) with
          | Throw e => Throw e
          | Normal sourcePort =>
          match Buffer.readUInt16BE (Buffer.subarray frame 36 38) with
          | Throw e => Throw e
          | Normal destinationPort =>
          match Buffer.readUInt16BE (Buffer.subarray frame 38 40) with
          | Throw e => Throw e
          | Normal udpPacketLength =>
              Normal (Some {| source := int2ip sourceInt;
                              destination := int2ip destinationInt;
                              sourcePort := sourcePort;
                              destinationPort := destinationPort;
                              payload := Buffer.subarray frame 42 (42 + (udpPacketLength - 8)) |})
          end end end end end
    end.
Proof.
  unfold parseUDPPacket.
  destruct (Buffer.equals _ XID_MAGIC); [done|].
  unfold parseUDPHeaders, mbind, stream_bind, mret, stream_ret,
    Stream.readUInt8, Stream.readUInt16BE, Stream.readUInt32BE, Stream.readBytes,
    Stream.read, Stream.skip, Stream.lift, Stream.set_offset, Stream.new,
    Stream.ret, Stream.bind.
  simpl.
  destruct (Buffer.readUInt8 _) as [protocol|e]; [|done]. simpl.
  destruct (negb (protocol =? 17)); simpl; [done|].
  destruct (Buffer.readUInt32BE _) as [sourceInt|e]; [|done]. simpl.
  destruct (Buffer.readUInt32BE _) as [destinationInt|e]; [|done]. simpl.
  destruct (Buffer.readUInt16BE _) as [sourcePort|e]; [|done]. simpl.
  destruct (Buffer.readUInt16BE _) as [destinationPort|e]; [|done]. simpl.
  destruct (Buffer.readUInt16BE _) as [udpPacketLength|e]; [|done]. simpl.
  done.
Qed.

Lemma view_of_byte (b : Buffer.t) (i : nat) (x : byte) :
  b !! i = Some x -> Buffer.subarray b (Z.of_nat i) (Z.of_nat i + 1) = [x].
Proof.
  intros Hx. rewrite subarray_take_drop by lia.
  rewrite Nat2Z.id, (drop_S _ _ _ Hx).
  replace (Z.to_nat (Z.of_nat i + 1 - Z.of_nat i)) with 1%nat by lia. done.
Qed.

(** A fixed-width read of a view that the frame does not hold whole
    throws; of one it holds whole, it returns a value that is not
    negative. *)
Lemma readUInt32BE_view (b : Buffer.t) (off : Z) :
  0 <= off ->
  if off + 4 <=? Buffer.length b
  then exists v, Buffer.readUInt32BE (Buffer.subarray b off (off + 4)) = Normal v /\ 0 <= v
  else Buffer.readUInt32BE (Buffer.subarray b off (off + 4)) = Throw RangeError.
Proof.
  intros Hoff. destruct (Z.leb_spec (off + 4) (Buffer.length b)) as [Hin|Hout].
  - pose proof (view_of_width b off 4 Hoff ltac:(lia) Hin) as Hlen.
    by_width Hlen; try lia. eexists. split; [reflexivity|].
    pose proof (u8_range b0). pose proof (u8_range b1).
    pose proof (u8_range b2). pose proof (u8_range b3). lia.
  - pose proof (view_too_short b off 4 Hoff ltac:(lia) Hout) as Hlen.
    by_width Hlen; try lia; done.
Qed.

Lemma readUInt16BE_view (b : Buffer.t) (off : Z) :
  0 <= off ->
  if off + 2 <=? Buffer.length b
  then exists v, Buffer.readUInt16BE (Buffer.subarray b off (off + 2)) = Normal v /\ 0 <= v
  else Buffer.readUInt16BE (Buffer.subarray b off (off + 2)) = Throw RangeError.
Proof.
  intros Hoff. destruct (Z.leb_spec (off + 2) (Buffer.length b)) as [Hin|Hout].
  - pose proof (view_of_width b off 2 Hoff ltac:(lia) Hin) as Hlen.
    by_width Hlen; try lia. eexists. split; [reflexivity|].
    pose proof (u8_range b0). pose proof (u8_range b1). lia.
  - pose proof (view_too_short b off 2 Hoff ltac:(lia) Hout) as Hlen.
    by_width Hlen; try lia; done.
Qed.

Lemma protocol_byte (frame : Buffer.t) (x : byte) :
  frame !! 23%nat = Some x -> Buffer.subarray frame 23 24 = [x].
Proof. intros Hx. exact (view_of_byte frame 23 x Hx). Qed.

Section FrameExtractor.
Context `{Collaborators}.

(** X9. A frame that is not an XID frame and that ends before its protocol
    byte (fewer than 24 bytes), or that is UDP and ends before the end of
    the UDP length field (fewer than 40 bytes), makes the frame extractor
    throw a RangeError, which leaves [handlePacket] with the parser as it
    was. *)
Theorem frames_cut_in_the_headers_throw (frame : Buffer.t) (st : Parser) :
  Buffer.subarray frame 17 20 <> XID_MAGIC ->
  Buffer.length frame <= 23 \/
  ((exists x, frame !! 23%nat = Some x /\ Buffer.u8 x = 0x11) /\ Buffer.length frame < 40) ->
  parseUDPPacket frame = Throw RangeError /\
  handlePacket frame st = Some (Threw RangeError st).
Proof.
  intros Hxid Hcut.
  assert (parseUDPPacket frame = Throw RangeError) as Hparse.
  { rewrite parseUDPPacket_views.
    destruct (Buffer.equals _ XID_MAGIC) eqn:Heq; [by apply equals_eq in Heq|].
    destruct Hcut as [Hshort | [(x & Hx & Hudp) Hshort]].
    - pose proof (view_too_short frame 23 1 ltac:(lia) ltac:(lia) ltac:(lia)) as Hlen.
      change (23 + 1) with 24 in Hlen. by_width Hlen; try lia; done.
    - rewrite (protocol_byte frame x Hx). cbn [Buffer.readUInt8]. rewrite Hudp.
      cbn [Z.eqb Pos.eqb negb].
      pose proof (readUInt32BE_view frame 26 ltac:(lia)) as H26.
      pose proof (readUInt32BE_view frame 30 ltac:(lia)) as H30.
      pose proof (readUInt16BE_view frame 34 ltac:(lia)) as H34.
      pose proof (readUInt16BE_view frame 36 ltac:(lia)) as H36.
      pose proof (readUInt16BE_view frame 38 ltac:(lia)) as H38.
      change (26 + 4) with 30 in H26. change (30 + 4) with 34 in H30.
      change (34 + 2) with 36 in H34. change (36 + 2) with 38 in H36.
      change (38 + 2) with 40 in H38.
      destruct (30 <=? Buffer.length frame); [destruct H26 as (? & -> & _) | by rewrite H26].
      destruct (34 <=? Buffer.length frame); [destruct H30 as (? & -> & _) | by rewrite H30].
      destruct (36 <=? Buffer.length frame); [destruct H34 as (? & -> & _) | by rewrite H34].
      destruct (38 <=? Buffer.length frame); [destruct H36 as (? & -> & _) | by rewrite H36].
      destruct (Z.leb_spec 40 (Buffer.length frame)); [lia | by rewrite H38]. }
  split; [done|]. unfold handlePacket. by rewrite Hparse.
Qed.

(** X10. A frame of 24 bytes or more whose protocol byte is not 0x11 is no
    UDP frame: the frame extractor returns nothing and [handlePacket]
    returns with the parser as it was. *)
Theorem frames_that_are_not_UDP_are_skipped (frame : Buffer.t) (st : Parser) (x : byte) :
  frame !! 23%nat = Some x -> Buffer.u8 x <> 0x11 ->
  parseUDPPacket frame = Normal None /\
  handlePacket frame st = Some (Returned st).
Proof.
  intros Hx Hudp.
  assert (parseUDPPacket frame = Normal None) as Hparse.
  { rewrite parseUDPPacket_views.
    destruct (Buffer.equals _ XID_MAGIC); [done|].
    rewrite (protocol_byte frame x Hx). cbn [Buffer.readUInt8].
    destruct (Z.eqb_spec (Buffer.u8 x) 17); [done|]. done. }
  split; [done|]. unfold handlePacket. by rewrite Hparse.
Qed.

End FrameExtractor.

(** X11. From a UDP frame of 40 bytes or more that is not an XID frame, the
    frame extractor returns the addresses read at bytes 26 and 30, the
    ports read at bytes 34 and 36, and as payload the bytes from byte 42
    on that the UDP length, read at byte 38, counts beyond the 8 bytes of
    the UDP header: bytes of the capture that follow them are left out, a
    capture that ends before them gives the bytes that are there, and a
    UDP length below 8 gives an empty payload. *)
Theorem UDP_frames_are_extracted (frame : Buffer.t) (x : byte) :
  Buffer.subarray frame 17 20 <> XID_MAGIC ->
  frame !! 23%nat = Some x -> Buffer.u8 x = 0x11 ->
  40 <= Buffer.length frame ->
  exists sourceInt destinationInt sourcePort destinationPort udpPacketLength payload,
    Buffer.readUInt32BE (Buffer.subarray frame 26 30) = Normal sourceInt /\
    Buffer.readUInt32BE (Buffer.subarray frame 30 34) = Normal destinationInt /\
    Buffer.readUInt16BE (Buffer.subarray frame 34 36) = Normal sourcePort /\
    Buffer.readUInt16BE (Buffer.subarray frame 36 38) = Normal destinationPort /\
    Buffer.readUInt16BE (Buffer.subarray frame 38 40) = Normal udpPacketLength /\
    parseUDPPacket frame =
      Normal (Some {| source := int2ip sourceInt; destination := int2ip destinationInt;
                      sourcePort := sourcePort; destinationPort := destinationPort;
                      payload := payload |}) /\
    (8 <= udpPacketLength -> 34 + udpPacketLength <= Buffer.length frame ->
       payload = take (Z.to_nat (udpPacketLength - 8)) (drop 42 frame) /\
       Buffer.length payload = udpPacketLength - 8) /\
    (8 <= udpPacketLength -> Buffer.length frame <= 34 + udpPacketLength ->
       payload = drop 42 frame) /\
    (udpPacketLength < 8 -> payload = []).
Proof.
  intros Hxid Hx Hudp Hlen.
  pose proof (readUInt32BE_view frame 26 ltac:(lia)) as H26.
  pose proof (readUInt32BE_view frame 30 ltac:(lia)) as H30.
  pose proof (readUInt16BE_view frame 34 ltac:(lia)) as H34.
  pose proof (readUInt16BE_view frame 36 ltac:(lia)) as H36.
  pose proof (readUInt16BE_view frame 38 ltac:(lia)) as H38.
  change (26 + 4) with 30 in H26. change (30 + 4) with 34 in H30.
  change (34 + 2) with 36 in H34. change (36 + 2) with 38 in H36.
  change (38 + 2) with 40 in H38.
  destruct (Z.leb_spec 30 (Buffer.length frame)); [|lia].
  destruct (Z.leb_spec 34 (Buffer.length frame)); [|lia].
  destruct (Z.leb_spec 36 (Buffer.length frame)); [|lia].
  destruct (Z.leb_spec 38 (Buffer.length frame)); [|lia].
  destruct (Z.leb_spec 40 (Buffer.length frame)); [|lia].
  destruct H26 as (sourceInt & H26 & _). destruct H30 as (destinationInt & H30 & _).
  destruct H34 as (sourcePort & H34 & _). destruct H36 as (destinationPort & H36 & _).
  destruct H38 as (udpPacketLength & H38 & Hpos).
  exists sourceInt, destinationInt, sourcePort, destinationPort, udpPacketLength,
    (Buffer.subarray frame 42 (42 + (udpPacketLength - 8))).
  do 5 (split; [done|]). split.
  - rewrite parseUDPPacket_views.
    destruct (Buffer.equals _ XID_MAGIC) eqn:Heq; [by apply equals_eq in Heq|].
    rewrite (protocol_byte frame x Hx). cbn [Buffer.readUInt8]. rewrite Hudp.
    cbn [Z.eqb Pos.eqb negb]. by rewrite H26, H30, H34, H36, H38.
  - rewrite subarray_take_drop by lia.
    replace (Z.to_nat (42 + (udpPacketLength - 8) - 42)) with (Z.to_nat (udpPacketLength - 8))
      by lia.
    change (Z.to_nat 42) with 42%nat.
    split; [|split].
    + intros H8 Hin. split; [done|].
      unfold Buffer.length in *. rewrite length_take, length_drop. lia.
    + intros H8 Hout. apply take_ge. rewrite length_drop. unfold Buffer.length in *. lia.
    + intros H8. replace (Z.to_nat (udpPacketLength - 8)) with 0%nat by lia. done.
Qed.

Section FrameExtractorRuns.
#[local] Existing Instance toy_opaque.
#[local] Existing Instance toy_collaborators.

(** The first 23 bytes of the frame with two packets. *)
Lemma frames_cut_in_the_headers_throw_witness :
  handlePacket (take 23 two_v1_frame) NEXParser_new = Some (Threw RangeError NEXParser_new).
Proof.
  apply (frames_cut_in_the_headers_throw (take 23 two_v1_frame) NEXParser_new).
  - vm_compute. discriminate.
  - left. vm_compute. discriminate.
Defined.

(** The frame with two packets, with 0x06 (TCP) as protocol. *)
Lemma frames_that_are_not_UDP_are_skipped_witness :
  handlePacket (<[23%nat := x06]> two_v1_frame) NEXParser_new = Some (Returned NEXParser_new).
Proof.
  apply (frames_that_are_not_UDP_are_skipped _ NEXParser_new x06).
  - reflexivity.
  - vm_compute. discriminate.
Defined.

End FrameExtractorRuns.

(** The frame with two packets, followed by four bytes of padding. *)
Lemma UDP_frames_are_extracted_witness :
  parseUDPPacket (two_v1_frame ++ [x00; x00; x00; x00]) =
    Normal (Some {| source := "192.168.0.13"; destination := "52.38.81.235";
                    sourcePort := 59901; destinationPort := 62248;
                    payload := two_v1_payload |}).
Proof.
  destruct (UDP_frames_are_extracted (two_v1_frame ++ [x00; x00; x00; x00]) x11)
    as (si & di & sp & dp & len & pl & Hsi & Hdi & Hsp & Hdp & Hlen & Hparse & Hfits & _).
  - vm_compute. discriminate.
  - reflexivity.
  - reflexivity.
  - vm_compute. discriminate.
  - injection Hsi as <-. injection Hdi as <-. injection Hsp as <-. injection Hdp as <-.
    injection Hlen as <-.
    destruct Hfits as [Hpl _]; [vm_compute; discriminate | vm_compute; discriminate |].
    rewrite Hparse, Hpl. reflexivity.
Defined.

(** ** The packets of a datagram *)

Lemma carve_connection (udpPayload : Buffer.t) (connection : nat) (s s' : Stream.t)
    (packet : Packet) :
  carve udpPayload connection s = Normal (Some packet, s') ->
  packet_connection packet = connection.
Proof.
  rewrite carve_views. cbv zeta.
  destruct (Buffer.equals _ MAGIC_V1).
  - destruct (Buffer.readUInt8 _) as [psdl|e]; [|done].
    destruct (Buffer.readUInt16LE _) as [ps|e]; [|done].
    destruct (isVirtualPortMarker _); [|done]. by intros [= <- _].
  - destruct (isVirtualPortMarker _); [|done]. by intros [= <- _].
Qed.

(** The view of some bytes inside a part of a buffer. *)
Lemma view_in_part (pre part post : Buffer.t) (a w : Z) :
  0 <= a -> 0 <= w -> a + w <= Buffer.length part ->
  Buffer.subarray (pre ++ part ++ post) (Buffer.length pre + a) (Buffer.length pre + a + w) =
  take (Z.to_nat w) (drop (Z.to_nat a) part).
Proof.
  intros Ha Hw Hin. pose proof (buffer_length_nonneg pre) as Hpre.
  rewrite subarray_take_drop by lia. unfold Buffer.length in *.
  replace (Z.to_nat (Z.of_nat (length pre) + a)) with (length pre + Z.to_nat a)%nat by lia.
  replace (Z.to_nat (Z.of_nat (length pre) + a + w - (Z.of_nat (length pre) + a)))
    with (Z.to_nat w) by lia.
  rewrite drop_app_add, drop_app_le by lia.
  apply take_app_le. rewrite length_drop. lia.
Qed.

(** The framer carves a whole v1 packet at its place in the payload. *)
Lemma carve_whole_v1 (udpPayload : Buffer.t) (connection : nat) (cn : option nat)
    (pre p post : Buffer.t) :
  isWholeV1 p = true ->
  carve udpPayload connection (Stream.mk cn (pre ++ p ++ post) (Buffer.length pre)) =
  Normal (Some (PacketV1 connection p),
          Stream.mk cn (pre ++ p ++ post) (Buffer.length pre + Buffer.length p)) /\
  30 <= Buffer.length p.
Proof.
  unfold isWholeV1.
  destruct p as [|m0 [|m1 [|v [|psdl [|s0 [|s1 [|p0 [|p1 rest]]]]]]]]; try done.
  set (p := m0 :: m1 :: v :: psdl :: s0 :: s1 :: p0 :: p1 :: rest).
  intros Hwhole. apply andb_true_iff in Hwhole as [Hwhole Hlen].
  apply andb_true_iff in Hwhole as [Hmagic Hports]. apply Z.eqb_eq in Hlen.
  pose proof (u8_range psdl). pose proof (u8_range s0). pose proof (u8_range s1).
  split; [|lia].
  rewrite carve_views. cbn [Stream._offset Stream._buffer]. cbv zeta.
  assert (forall a w, 0 <= a -> 0 <= w -> a + w <= 8 ->
            Buffer.subarray (pre ++ p ++ post) (Buffer.length pre + a) (Buffer.length pre + a + w)
            = take (Z.to_nat w) (drop (Z.to_nat a) p)) as Hview.
  { intros a w Ha Hw Haw. apply view_in_part; lia. }
  pose proof (Hview 0 2 ltac:(lia) ltac:(lia) ltac:(lia)) as Hv0.
  pose proof (Hview 3 1 ltac:(lia) ltac:(lia) ltac:(lia)) as Hv3.
  pose proof (Hview 4 2 ltac:(lia) ltac:(lia) ltac:(lia)) as Hv4.
  pose proof (Hview 6 2 ltac:(lia) ltac:(lia) ltac:(lia)) as Hv6.
  rewrite Z.add_0_r in Hv0.
  replace (Buffer.length pre + 3 + 1) with (Buffer.length pre + 4) in Hv3 by lia.
  replace (Buffer.length pre + 4 + 2) with (Buffer.length pre + 6) in Hv4 by lia.
  replace (Buffer.length pre + 6 + 2) with (Buffer.length pre + 8) in Hv6 by lia.
  rewrite Hv0, Hv3, Hv4, Hv6.
  change (take (Z.to_nat 2) (drop (Z.to_nat 0) p)) with [m0; m1].
  change (take (Z.to_nat 1) (drop (Z.to_nat 3) p)) with [psdl].
  change (take (Z.to_nat 2) (drop (Z.to_nat 4) p)) with [s0; s1].
  change (take (Z.to_nat 2) (drop (Z.to_nat 6) p)) with [p0; p1].
  rewrite Hmagic, Hports. cbn [Buffer.readUInt8 Buffer.readUInt16LE].
  rewrite <- Hlen. unfold Stream.set_offset. cbn [Stream._offset Stream._buffer Stream.connection].
  by rewrite subarray_app_middle.
Qed.

Section Datagram.
Context `{Collaborators}.

Lemma processPacket_turnEvents (connection : nat) (newConnection : bool) (packet : Packet)
    (st : Parser) :
  emitted (processPacket connection newConnection packet st) =
  emitted st ++ turnEvents connection newConnection packet.
Proof. apply processPacket_emitted. Qed.

(** The events of the loop: those of a turn for each packet it sets, all
    for the connection of the loop. *)
Lemma packetLoop_events (fuel : nat) (udpPayload : Buffer.t) (connection : nat)
    (newConnection : bool) (stream : Stream.t) (st : Parser) (o : Outcome) :
  packetLoop fuel udpPayload connection newConnection stream st = Some o ->
  exists packets,
    emitted (parser_of o) =
      emitted st ++ (packets ≫= turnEvents connection newConnection) /\
    Forall (fun packet => packet_connection packet = connection) packets /\
    (2 * Z.of_nat (length packets) <= Z.max 0 (Stream.remaining stream) + 1).
Proof.
  revert stream st. induction fuel as [|fuel IH]; intros stream st; [done|].
  rewrite packetLoop_unfold.
  destruct (Stream.hasDataLeft stream) eqn:Hleft;
    [|intros [= <-]; exists []; rewrite app_nil_r; split; [done|split; [done|simpl; lia]]].
  destruct (carve udpPayload connection stream) as [[[packet|] stream']|e] eqn:Hcarve;
    [|intros [= <-]; exists []; rewrite app_nil_r; split; [done|split; [done|simpl; lia]]..].
  intros Hloop. apply IH in Hloop as (packets & Hev & Hconn & Hcount).
  pose proof (carve_connection _ _ _ _ _ Hcarve) as Hc.
  apply carve_advances in Hcarve as [Hbuf Hoff].
  apply Z.ltb_lt in Hleft.
  exists (packet :: packets). split; [|split].
  - rewrite Hev, processPacket_turnEvents, <- app_assoc. done.
  - by constructor.
  - unfold Stream.remaining in *. rewrite Hbuf in Hcount. cbn [length]. lia.
Qed.


(** The loop over whole v1 packets that follow one another: a turn for
    each. *)
Lemma packetLoop_whole_v1 (connection : nat) (newConnection : bool) (packets : list Buffer.t) :
  forall (fuel : nat) (pre : Buffer.t) (st : Parser),
    Forall (fun p => isWholeV1 p = true) packets ->
    (length packets < fuel)%nat ->
    packetLoop fuel (pre ++ concat packets) connection newConnection
      (Stream.mk None (pre ++ concat packets) (Buffer.length pre)) st =
    Some (Returned (foldl (fun st p => processPacket connection newConnection
                                         (PacketV1 connection p) st) st packets)).
Proof.
  induction packets as [|p packets IH]; intros fuel pre st Hwhole Hfuel;
    (destruct fuel as [|fuel]; [simpl in Hfuel; lia|]); rewrite packetLoop_unfold.
  - cbn [concat]. rewrite app_nil_r. unfold Stream.hasDataLeft.
    cbn [Stream._offset Stream._buffer]. by rewrite Z.ltb_irrefl.
  - apply Forall_cons_1 in Hwhole as [Hp Hwhole].
    cbn [concat].
    destruct (carve_whole_v1 (pre ++ p ++ concat packets) connection None pre p
      (concat packets) Hp) as [Hcarve Hlen].
    assert (Stream.hasDataLeft
              (Stream.mk None (pre ++ p ++ concat packets) (Buffer.length pre)) = true) as ->.
    { unfold Stream.hasDataLeft. cbn [Stream._offset Stream._buffer].
      apply Z.ltb_lt. rewrite !length_app_Z.
      pose proof (buffer_length_nonneg (concat packets)). lia. }
    rewrite Hcarve. cbn [foldl].
    rewrite <- length_app_Z, (app_assoc pre p).
    apply IH; [done | simpl in Hfuel; lia].
Qed.

(** X13. A datagram whose payload is whole PRUDPv1 packets, one after the
    other, is handled to the end: the loop returns, and the packets it
    emits are those packets, in their order, each over its own bytes and
    none over bytes of another. *)
Theorem concatenated_v1_packets_are_all_carved (udpPacket : UDPPacket) (st : Parser)
    (packets : list Buffer.t) :
  Forall (fun p => isWholeV1 p = true) packets ->
  payload udpPacket = concat packets ->
  exists st',
    handleUDPPacket udpPacket st = Some (Returned st') /\
    emittedPackets (emitted st') =
      emittedPackets (emitted st) ++ (PacketV1 (connectionFor udpPacket st).1 <$> packets).
Proof.
  intros Hwhole Hpayload.
  assert (forall connection newConnection st0 (ps : list Buffer.t),
            emittedPackets (emitted (foldl (fun st p => processPacket connection newConnection
                                                          (PacketV1 connection p) st) st0 ps))
            = emittedPackets (emitted st0) ++ (PacketV1 connection <$> ps)) as Hfold.
  { intros connection newConnection st0 ps. revert st0.
    induction ps as [|p ps IH]; intros st0; [by rewrite app_nil_r|].
    cbn [foldl]. rewrite IH, processPacket_emitted.
    unfold emittedPackets. rewrite !omap_app, <- app_assoc.
    by destruct newConnection. }
  assert (length packets < S (length (concat packets)))%nat as Hfuel.
  { clear Hpayload. induction Hwhole as [|p ps Hp Hps IH]; [simpl; lia|].
    destruct (carve_whole_v1 [] 0%nat None [] p [] Hp) as [_ Hlen].
    cbn [concat length]. rewrite length_app. unfold Buffer.length in Hlen. lia. }
  unfold handleUDPPacket, connectionFor. rewrite Hpayload.
  destruct (lookupConnection st _) as [connection|]; unfold allocate; cbn [fst snd].
  - pose proof (packetLoop_whole_v1 connection false packets _ [] st Hwhole Hfuel) as Hloop.
    cbn [app] in Hloop. change (Buffer.length []) with 0 in Hloop.
    unfold Stream.new. rewrite Hloop. eexists. split; [done|]. apply Hfold.
  - set (st0 := {| store := _; connections := _; emitted := _ |}).
    pose proof (packetLoop_whole_v1 (length (store st)) true packets _ [] st0 Hwhole Hfuel)
      as Hloop.
    cbn [app] in Hloop. change (Buffer.length []) with 0 in Hloop.
    unfold Stream.new. rewrite Hloop. eexists. split; [done|].
    exact (Hfold _ _ st0 _).
Qed.

End Datagram.

Section DatagramRuns.
#[local] Existing Instance toy_opaque.
#[local] Existing Instance toy_collaborators.

(** Two packets in a datagram of the flow that the toy parser has. *)
Lemma concatenated_v1_packets_are_all_carved_witness :
  exists st',
    handleUDPPacket {| source := "52.38.81.235"; destination := "192.168.0.13";
                       sourcePort := 62248; destinationPort := 59901;
                       payload := two_v1_payload |} (toy_parser same_socket)
      = Some (Returned st') /\
    emittedPackets (emitted st') = [PacketV1 0%nat v1_packet; PacketV1 0%nat v1_packet].
Proof.
  destruct (concatenated_v1_packets_are_all_carved
    {| source := "52.38.81.235"; destination := "192.168.0.13";
       sourcePort := 62248; destinationPort := 59901;
       payload := two_v1_payload |} (toy_parser same_socket) [v1_packet; v1_packet])
    as (st' & Hloop & Hpackets).
  - repeat constructor.
  - reflexivity.
  - exists st'. split; [exact Hloop | exact Hpackets].
Defined.

End DatagramRuns.

(** ** The promotion and the lookup *)

Lemma findLast_ext {A : Type} (p q : A -> bool) (l : list A) :
  (forall x, p x = q x) -> findLast p l = findLast q l.
Proof.
  intros Hpq. induction l as [|x l IH]; simpl; [done|]. by rewrite IH, Hpq.
Qed.

(** The match that [findLast] returns when all matches are the same. *)
Lemma findLast_only {A : Type} (p : A -> bool) (l : list A) (x : A) :
  x ∈ l -> p x = true -> (forall y, y ∈ l -> p y = true -> y = x) ->
  findLast p l = Some x.
Proof.
  intros Hx Hp Honly. destruct (findLast p l) as [y|] eqn:Hy.
  - apply findLast_Some in Hy as (older & newer & -> & Hpy & _).
    f_equal. apply Honly; [|done]. apply elem_of_app. right. by left.
  - assert (p x = false) as Hcontra; [|congruence].
    eapply findLast_None; [exact Hy | done].
Qed.

Section PromotionAndLookup.
Context `{Collaborators}.

Lemma checkSecureServer_idle (connection : nat) (st : Parser) (c : Connection) :
  store st !! connection = Some c -> checkForSecureServer c = false ->
  checkSecureServer connection st = st.
Proof.
  intros Hc Hflag. unfold checkSecureServer. rewrite Hc, Hflag.
  by destruct (secureServerStationURL c).
Qed.

(** X14. The secure-server check is spent when it has been evaluated: a
    second evaluation right after it changes nothing, whatever the first
    one did. *)
Theorem secure_server_check_is_spent (connection : nat) (st : Parser) :
  checkSecureServer connection (checkSecureServer connection st) =
  checkSecureServer connection st.
Proof.
  destruct (store st !! connection) as [c|] eqn:Hc.
  2: { assert (checkSecureServer connection st = st) as E
         by (unfold checkSecureServer; by rewrite Hc).
       by rewrite !E. }
  pose proof (lookup_lt_Some _ _ _ Hc) as Hlt.
  destruct (secureServerStationURL c) as [url|] eqn:Hurl.
  2: { assert (checkSecureServer connection st = st) as E
         by (unfold checkSecureServer; by rewrite Hc, Hurl).
       by rewrite !E. }
  destruct (checkForSecureServer c) eqn:Hflag.
  2: { assert (checkSecureServer connection st = st) as E
         by (unfold checkSecureServer; by rewrite Hc, Hurl, Hflag).
       by rewrite !E. }
  assert (exists c', store (checkSecureServer connection st) !! connection = Some c' /\
                     checkForSecureServer c' = false) as (c' & Hc' & Hflag').
  { unfold checkSecureServer. rewrite Hc, Hurl, Hflag. cbv zeta.
    case_bool_decide; cbn [store]; eexists.
    - rewrite list_lookup_alter_eq, lookup_app_l, Hc by done. done.
    - rewrite list_lookup_alter_eq, list_lookup_insert_eq by done. done. }
  by apply (checkSecureServer_idle _ _ c').
Qed.

(** X15. Once the check has fired for the current connection, a lookup for
    the [ip:port] of the station URL returns a connection that has this
    discriminator, is marked as the secure server and has the session key
    of the connection and both cipher states built from it: the datagrams
    of the secure server are handled with the key of the session. *)
Theorem secure_server_is_looked_up_after_promotion (connection : nat) (st : Parser)
    (c : Connection) (url : StationURL) :
  let secureDiscriminator := address url +:+ ":" +:+ port url in
  let st' := checkSecureServer connection st in
  store st !! connection = Some c ->
  secureServerStationURL c = Some url ->
  checkForSecureServer c = true ->
  lookupConnection st (discriminator c) = Some connection ->
  exists r s,
    lookupConnection st' secureDiscriminator = Some r /\
    store st' !! r = Some s /\
    discriminator s = secureDiscriminator /\
    isSecureServer s = true /\
    sessionKey s = sessionKey c /\
    rc4ClientState s = RC4 (sessionKey c) /\
    rc4ServerState s = RC4 (sessionKey c).
Proof.
  cbv zeta. intros Hc Hurl Hflag Hcurrent.
  pose proof (lookup_lt_Some _ _ _ Hc) as Hlt.
  unfold checkSecureServer. rewrite Hc, Hurl, Hflag. cbv zeta.
  case_bool_decide as Hd.
  - eexists (length (store st)), _.
    assert (forall sc : Connection,
              alter (set_checkForSecureServer false) connection (store st ++ [sc])
                !! length (store st) = Some sc) as Hnew.
    { intros sc. rewrite list_lookup_alter_ne by lia.
      rewrite lookup_app_r by lia. by rewrite Nat.sub_diag. }
    split; [|split; [cbn [store]; apply Hnew|repeat split]].
    unfold lookupConnection. cbn [connections].
    apply findLast_app_Some. cbn [findLast].
    unfold hasDiscriminator. cbn [store]. rewrite Hnew.
    by rewrite bool_decide_eq_true_2.
  - exists connection. eexists.
    assert (forall d r,
              hasDiscriminator
                {| store := alter (set_checkForSecureServer false) connection
                              (<[connection := setRC4Key (sessionKey (set_isSecureServer true c))
                                                 (set_isSecureServer true c)]> (store st));
                   connections := connections st; emitted := emitted st |} d r
              = hasDiscriminator st d r) as Hsame.
    { intros d r. unfold hasDiscriminator. cbn [store].
      destruct (decide (connection = r)) as [<- | Hne].
      - rewrite list_lookup_alter_eq, list_lookup_insert_eq, Hc by done. done.
      - rewrite list_lookup_alter_ne, list_lookup_insert_ne by done. done. }
    split; [|split;
      [cbn [store]; rewrite list_lookup_alter_eq, list_lookup_insert_eq by done; done
      |repeat split; done]].
    unfold lookupConnection in *. cbn [connections].
    rewrite (findLast_ext _ (hasDiscriminator st (address url +:+ ":" +:+ port url)))
      by apply Hsame.
    by rewrite <- Hd.
Qed.

End PromotionAndLookup.

Section PromotionAndLookupRuns.
#[local] Existing Instance toy_opaque.
#[local] Existing Instance toy_collaborators.

(** The secure server at another address, and at the address of the
    authentication server. *)
Lemma secure_server_is_looked_up_after_promotion_witness :
  (exists r s,
     lookupConnection (checkSecureServer 0%nat (toy_parser elsewhere)) "52.38.81.240:60001"
       = Some r /\
     store (checkSecureServer 0%nat (toy_parser elsewhere)) !! r = Some s /\
     isSecureServer s = true) /\
  (exists r s,
     lookupConnection (checkSecureServer 0%nat (toy_parser same_socket)) "52.38.81.235:62248"
       = Some r /\
     store (checkSecureServer 0%nat (toy_parser same_socket)) !! r = Some s /\
     isSecureServer s = true).
Proof.
  destruct (secure_server_is_looked_up_after_promotion 0%nat (toy_parser elsewhere)
    (toy_authenticated elsewhere) elsewhere) as (r & s & Hr & Hs & _ & Hsec & _);
    [reflexivity..|].
  destruct (secure_server_is_looked_up_after_promotion 0%nat (toy_parser same_socket)
    (toy_authenticated same_socket) same_socket) as (r' & s' & Hr' & Hs' & _ & Hsec' & _);
    [reflexivity..|].
  split.
  - exists r, s. split; [exact Hr|]. split; [exact Hs | exact Hsec].
  - exists r', s'. split; [exact Hr'|]. split; [exact Hs' | exact Hsec'].
Defined.

End PromotionAndLookupRuns.

(** ** The tables of the Service Item protocol *)

Section Tables.
Context `{ServiceItem.Bodies}.

(** X16. Every method of [Methods] has, under its id, its name in
    [MethodNames] and the static method of that name in [Handlers], and a
    message with the id is decoded by that method: the request structure
    for a request, the response structure otherwise, over a fresh stream
    on the body. *)
Theorem every_method_has_its_own_handler (name : string) (id : Z)
    (packet : ServiceItem.Packet) :
  (name, id) ∈ ServiceItem.Methods ->
  ServiceItem.methodId (ServiceItem.rmcMessage packet) = Some id ->
  exists handler,
    handlerName handler = name /\
    ServiceItem.Handlers !! id = Some handler /\
    ServiceItem.MethodNames !! id = Some name /\
    ServiceItem.handlePacket packet =
      match (if ServiceItem.isRequest (ServiceItem.rmcMessage packet)
             then ServiceItem.Requests handler
             else ServiceItem.Responses handler)
              (Stream.new (ServiceItem.body (ServiceItem.rmcMessage packet))
                 (Some (ServiceItem.connection packet))) with
      | Normal parsed =>
          Normal ({| ServiceItem.rmcMessage := ServiceItem.rmcMessage packet;
                     ServiceItem.connection := ServiceItem.connection packet;
                     ServiceItem.rmcData := Some parsed |}, [])
      | Throw e => Throw e
      end.
Proof.
  intros Hin Hid.
  assert (exists handler, handlerName handler = name /\
            ServiceItem.Handlers !! id = Some handler /\
            ServiceItem.MethodNames !! id = Some name) as (handler & Hname & Hh & Hn).
  { unfold ServiceItem.Methods in Hin.
    repeat (apply elem_of_cons in Hin as [[= -> ->] | Hin];
            [eexists; split; [|split]; [|vm_compute; reflexivity|vm_compute; reflexivity];
             reflexivity|]).
    by apply elem_of_nil in Hin. }
  exists handler. split; [done|]. split; [done|]. split; [done|].
  unfold ServiceItem.handlePacket. rewrite Hid. cbn [ServiceItem.property]. rewrite Hh.
  unfold ServiceItem.call. by destruct (ServiceItem.isRequest _).
Qed.

End Tables.

Section TablesRuns.
#[local] Existing Instance toy_bodies.

Lemma every_method_has_its_own_handler_witness :
  exists handler,
    handlerName handler = "GetBalanceRequest" /\
    ServiceItem.Handlers !! 8 = Some handler /\
    ServiceItem.handlePacket (toy_message 8) =
      Normal ({| ServiceItem.rmcMessage := ServiceItem.rmcMessage (toy_message 8);
                 ServiceItem.connection := 0%nat;
                 ServiceItem.rmcData := Some (true, 3) |}, []).
Proof.
  destruct (every_method_has_its_own_handler "GetBalanceRequest" 8 (toy_message 8))
    as (handler & Hname & Hh & _ & Hcall).
  - vm_compute. do 7 right. left.
  - reflexivity.
  - exists handler. split; [exact Hname|]. split; [exact Hh|].
    rewrite Hcall. vm_compute in Hh. injection Hh as <-. reflexivity.
Defined.

End TablesRuns.

(** ** The first datagram of a flow *)

Lemma carve_needs_data (udpPayload b : Buffer.t) (connection : nat) (packet : Packet)
    (s' : Stream.t) :
  carve udpPayload connection (Stream.new b None) = Normal (Some packet, s') ->
  Stream.hasDataLeft (Stream.new b None) = true.
Proof.
  destruct b as [|x b]; [done|]. intros _.
  unfold Stream.hasDataLeft, Buffer.length. simpl. by apply Z.ltb_lt.
Qed.

Section FirstDatagram.
Context `{Collaborators}.

Lemma only_new_match_alter (base : list Connection) (connection : nat) (d : string)
    (f : Connection -> Connection) (i : nat) (current : list Connection) :
  (forall c, discriminator (f c) = discriminator c) ->
  only_new_match base connection d current ->
  only_new_match base connection d (alter f i current).
Proof.
  intros Hf [(c & Hc & Hd) Honly]. split.
  - destruct (decide (i = connection)) as [-> | Hne].
    + exists (f c). rewrite list_lookup_alter_eq, Hc. split; [done|]. by rewrite Hf.
    + exists c. by rewrite list_lookup_alter_ne.
  - intros r x Hx Hdx. destruct (decide (i = r)) as [-> | Hne].
    + rewrite list_lookup_alter_eq in Hx.
      destruct (current !! r) as [y|] eqn:Hy; [|done]. injection Hx as <-.
      rewrite Hf in Hdx. by apply (Honly r y).
    + rewrite list_lookup_alter_ne in Hx by done. by apply (Honly r x).
Qed.

Lemma only_new_match_insert (base : list Connection) (connection : nat) (d : string)
    (c' : Connection) (current : list Connection) :
  discriminator c' = d ->
  only_new_match base connection d current ->
  only_new_match base connection d (<[connection := c']> current).
Proof.
  intros Hd' [(c & Hc & Hd) Honly]. pose proof (lookup_lt_Some _ _ _ Hc) as Hlt. split.
  - exists c'. by rewrite list_lookup_insert_eq.
  - intros r x Hx Hdx. destruct (decide (connection = r)) as [<- | Hne]; [by left|].
    rewrite list_lookup_insert_ne in Hx by done. by apply (Honly r x).
Qed.

Lemma only_new_match_app (base : list Connection) (connection : nat) (d : string)
    (sc : Connection) (current : list Connection) :
  discriminator sc <> d ->
  only_new_match base connection d current ->
  only_new_match base connection d (current ++ [sc]).
Proof.
  intros Hsc [(c & Hc & Hd) Honly]. pose proof (lookup_lt_Some _ _ _ Hc) as Hlt. split.
  - exists c. by rewrite lookup_app_l.
  - intros r x Hx Hdx. destruct (decide (r < length current)%nat) as [Hr|Hr].
    + rewrite lookup_app_l in Hx by done. by apply (Honly r x).
    + rewrite lookup_app_r in Hx by lia.
      destruct (r - length current)%nat; simpl in Hx; [|done].
      injection Hx as <-. done.
Qed.

Lemma checkSecureServer_only_new_match (base : list Connection) (connection : nat)
    (d : string) (st : Parser) :
  only_new_match base connection d (store st) ->
  only_new_match base connection d (store (checkSecureServer connection st)).
Proof.
  intros Hinv. pose proof Hinv as [(c & Hc & Hd) _].
  unfold checkSecureServer. rewrite Hc.
  destruct (secureServerStationURL c) as [url|]; [|done].
  destruct (checkForSecureServer c); [|done]. cbv zeta.
  case_bool_decide as Hne; cbn [store].
  - apply only_new_match_alter; [done|].
    apply only_new_match_app; [|done]. cbn. congruence.
  - apply only_new_match_alter; [done|].
    by apply only_new_match_insert.
Qed.

Section WithStableDiscriminator.
(** The connection's own [handlePacket] leaves the identity alone. *)
Hypothesis handlePacket_keeps_discriminator :
  forall c packet, discriminator (Connection_handlePacket c packet) = discriminator c.

Lemma processPacket_only_new_match (base : list Connection) (connection : nat) (d : string)
    (newConnection : bool) (packet : Packet) (st : Parser) :
  only_new_match base connection d (store st) ->
  only_new_match base connection d (store (processPacket connection newConnection packet st)).
Proof.
  intros Hinv. unfold processPacket, emitPacket. cbn [store].
  apply checkSecureServer_only_new_match. unfold deliver. cbn [store].
  apply only_new_match_alter; [done|].
  unfold register. by destruct newConnection.
Qed.

Lemma packetLoop_only_new_match (base : list Connection) (d : string) (fuel : nat)
    (udpPayload : Buffer.t) (connection : nat) (newConnection : bool) (stream : Stream.t)
    (st : Parser) (o : Outcome) :
  packetLoop fuel udpPayload connection newConnection stream st = Some o ->
  only_new_match base connection d (store st) ->
  only_new_match base connection d (store (parser_of o)).
Proof.
  revert stream st. induction fuel as [|fuel IH]; intros stream st; [done|].
  rewrite packetLoop_unfold.
  destruct (Stream.hasDataLeft stream); [|by intros [= <-]].
  destruct (carve udpPayload connection stream) as [[[packet|] stream']|e];
    [|by intros [= <-]..].
  intros Hloop Hinv. apply IH in Hloop; [done|].
  by apply processPacket_only_new_match.
Qed.

End WithStableDiscriminator.

(** What the loop pushes on the registry: the connection of the loop, or
    connections created while it runs. *)
Lemma packetLoop_pushes (fuel : nat) (udpPayload : Buffer.t) (connection : nat)
    (newConnection : bool) (stream : Stream.t) (st : Parser) (o : Outcome) :
  packetLoop fuel udpPayload connection newConnection stream st = Some o ->
  exists more,
    connections (parser_of o) = connections st ++ more /\
    Forall (fun r => r = connection \/ (length (store st) <= r)%nat) more.
Proof.
  revert stream st. induction fuel as [|fuel IH]; intros stream st; [done|].
  rewrite packetLoop_unfold.
  destruct (Stream.hasDataLeft stream);
    [|intros [= <-]; exists []; by rewrite app_nil_r].
  destruct (carve udpPayload connection stream) as [[[packet|] stream']|e];
    [|intros [= <-]; exists []; by rewrite app_nil_r..].
  intros Hloop. apply IH in Hloop as (more & Hconns & Hmore).
  destruct (processPacket_connections connection newConnection packet st)
    as (promoted & Hturn & Hpromoted).
  pose proof (processPacket_store_length connection newConnection packet st) as Hlen.
  exists (((if newConnection then [connection] else []) ++ promoted) ++ more).
  split; [by rewrite Hconns, Hturn, !app_assoc|].
  apply Forall_app. split; [apply Forall_app; split|].
  - destruct newConnection; [apply Forall_cons_2; [by left | constructor] | constructor].
  - destruct Hpromoted as [-> | ->]; [constructor|].
    apply Forall_cons_2; [right; lia | constructor].
  - eapply Forall_impl; [exact Hmore|]. cbv beta. intros r [-> | Hr]; [by left | right; lia].
Qed.

(** X17. Where the connection's own [handlePacket] leaves discriminators
    alone: a datagram of a flow that the registry does not know and whose
    first bytes the framer accepts leaves the flow registered, and a
    lookup for its discriminator then returns the connection that was
    created for the datagram, whatever else the datagram holds and
    whatever promotions it brings about. *)
Theorem first_valid_packet_registers_the_flow (udpPacket : UDPPacket) (st : Parser)
    (packet : Packet) (stream' : Stream.t) :
  (forall c p, discriminator (Connection_handlePacket c p) = discriminator c) ->
  lookupConnection st (route_discriminator (route udpPacket)) = None ->
  carve (payload udpPacket) (length (store st)) (Stream.new (payload udpPacket) None)
    = Normal (Some packet, stream') ->
  exists o c,
    handleUDPPacket udpPacket st = Some o /\
    lookupConnection (parser_of o) (route_discriminator (route udpPacket))
      = Some (length (store st)) /\
    store (parser_of o) !! length (store st) = Some c /\
    discriminator c = route_discriminator (route udpPacket).
Proof.
  intros Hid Hnew Hcarve.
  set (d := route_discriminator (route udpPacket)) in *.
  set (connection := length (store st)) in *.
  unfold handleUDPPacket. fold d. rewrite Hnew. unfold allocate. fold connection.
  set (c0 := set_serverAddress _ _).
  set (st0 := {| store := store st ++ [c0]; connections := connections st;
                 emitted := emitted st |}).
  rewrite packetLoop_unfold, (carve_needs_data _ _ _ _ _ Hcarve), Hcarve.
  set (st1 := processPacket connection true packet st0).
  destruct (packetLoop_terminates (length (payload udpPacket)) (payload udpPacket)
    connection true stream' st1) as [o Ho].
  { pose proof (carve_needs_data _ _ _ _ _ Hcarve) as Hdata.
    apply Z.ltb_lt in Hdata. apply carve_advances in Hcarve as [Hbuf Hoff].
    unfold Stream.remaining. rewrite Hbuf.
    unfold Buffer.length in *. simpl in *. lia. }
  assert (only_new_match (store st0) connection d (store st0)) as Hinv0.
  { split.
    - exists c0. split; [|done]. unfold st0. cbn [store]. unfold connection.
      rewrite lookup_app_r by lia. by rewrite Nat.sub_diag.
    - intros r x Hx Hdx. right. by exists x. }
  pose proof (processPacket_only_new_match Hid _ _ _ true packet _ Hinv0) as Hinv1.
  fold st1 in Hinv1.
  pose proof (packetLoop_only_new_match Hid _ _ _ _ _ _ _ _ _ Ho Hinv1) as [(c & Hc & Hd) Honly].
  destruct (packetLoop_pushes _ _ _ _ _ _ _ Ho) as (more & Hconns & Hmore).
  destruct (processPacket_connections connection true packet st0)
    as (promoted & Hturn & Hpromoted).
  pose proof (processPacket_store_length connection true packet st0) as Hlen1.
  fold st1 in Hturn, Hlen1.
  assert (length (store st0) = S connection) as Hlen0.
  { unfold st0. cbn [store]. rewrite length_app. simpl. unfold connection. lia. }
  exists o, c. split; [done|]. split; [|done].
  unfold lookupConnection. apply findLast_only.
  - rewrite Hconns, Hturn. cbn [connections st0].
    apply elem_of_app. left. apply elem_of_app. right. by left.
  - unfold hasDiscriminator. rewrite Hc. by apply bool_decide_eq_true_2.
  - intros y Hy Hmatch.
    unfold hasDiscriminator in Hmatch.
    destruct (store (parser_of o) !! y) as [x|] eqn:Hx; [|done].
    apply bool_decide_eq_true_1 in Hmatch.
    destruct (Honly y x Hx Hmatch) as [-> | (x0 & Hx0 & Hd0)]; [done|].
    unfold st0 in Hx0. cbn [store] in Hx0.
    destruct (decide (y < connection)%nat) as [Hlt|Hge].
    + rewrite lookup_app_l in Hx0 by done.
      exfalso.
      rewrite Hconns, Hturn in Hy. cbn [connections st0] in Hy.
      rewrite !elem_of_app in Hy.
      destruct Hy as [[Hy | [Hy | Hy]] | Hy].
      * unfold lookupConnection in Hnew.
        pose proof (proj1 (findLast_None _ _) Hnew y Hy) as Hno.
        unfold hasDiscriminator in Hno. rewrite Hx0 in Hno.
        by rewrite bool_decide_eq_true_2 in Hno.
      * apply list_elem_of_singleton in Hy. lia.
      * destruct Hpromoted as [-> | ->]; [by apply elem_of_nil in Hy|].
        apply list_elem_of_singleton in Hy. lia.
      * rewrite Forall_forall in Hmore. destruct (Hmore y Hy) as [-> | Hy']; lia.
    + apply lookup_lt_Some in Hx0. rewrite length_app in Hx0. simpl in Hx0.
      unfold connection in *. lia.
Qed.

End FirstDatagram.

Section FirstDatagramRuns.
#[local] Existing Instance toy_opaque.
#[local] Existing Instance toy_collaborators.

(** A v1 packet, then a v0 packet, from a flow that the toy parser does not
    have. *)
Lemma first_valid_packet_registers_the_flow_witness :
  exists o,
    handleUDPPacket {| source := "192.168.0.13"; destination := "52.38.81.240";
                       sourcePort := 59901; destinationPort := 60001;
                       payload := v1_then_v0_payload |} (toy_parser same_socket) = Some o /\
    lookupConnection (parser_of o) "52.38.81.240:60001" = Some 1%nat.
Proof.
  destruct (first_valid_packet_registers_the_flow
    {| source := "192.168.0.13"; destination := "52.38.81.240";
       sourcePort := 59901; destinationPort := 60001;
       payload := v1_then_v0_payload |} (toy_parser same_socket)
    (PacketV1 1%nat v1_packet) (Stream.mk None v1_then_v0_payload 30))
    as (o & c & Ho & Hlookup & _).
  - intros c p. reflexivity.
  - reflexivity.
  - reflexivity.
  - exists o. split; [exact Ho | exact Hlookup].
Defined.

End FirstDatagramRuns.

(** ** The two directions of a flow *)

Section BothDirections.
Context `{Collaborators}.

Lemma handleUDPPacket_total (udpPacket : UDPPacket) (st : Parser) :
  is_Some (handleUDPPacket udpPacket st).
Proof.
  unfold handleUDPPacket.
  destruct (lookupConnection st _) as [connection|]; [|unfold allocate];
    apply packetLoop_terminates; unfold Stream.remaining, Buffer.length; simpl; lia.
Qed.

(** The events of a datagram, by the connection that is looked up or
    created for it. *)
Lemma handleUDPPacket_events (udpPacket : UDPPacket) (st : Parser) (o : Outcome) :
  handleUDPPacket udpPacket st = Some o ->
  exists packets,
    emitted (parser_of o) =
      emitted st ++
      (packets ≫= turnEvents (connectionFor udpPacket st).1 (connectionFor udpPacket st).2) /\
    Forall (fun packet => packet_connection packet = (connectionFor udpPacket st).1) packets.
Proof.
  unfold handleUDPPacket, connectionFor.
  destruct (lookupConnection st _) as [connection|]; unfold allocate; cbn [fst snd];
    intros Ho; destruct (packetLoop_events _ _ _ _ _ _ _ Ho) as (packets & Hev & Hconn & _);
    by exists packets.
Qed.

(** The lookup returns [connection] when it is in the registry and what
    follows it there did not have the discriminator before. *)
Lemma lookup_only_new_match (st' : Parser) (base : list Connection) (connection : nat)
    (d : string) (older newer : list nat) :
  only_new_match base connection d (store st') ->
  connections st' = older ++ connection :: newer ->
  (forall y x0, y ∈ newer -> base !! y = Some x0 -> discriminator x0 = d -> y = connection) ->
  lookupConnection st' d = Some connection.
Proof.
  intros [(c & Hc & Hd) Honly] Hconns Hnewer.
  destruct (lookup_not_older st' d older newer connection Hconns) as (r' & Hlookup & Hin & Hhas).
  { unfold hasDiscriminator. rewrite Hc. by apply bool_decide_eq_true_2. }
  rewrite Hlookup. f_equal.
  apply elem_of_cons in Hin as [-> | Hin]; [done|].
  unfold hasDiscriminator in Hhas.
  destruct (store st' !! r') as [x|] eqn:Hx; [|done].
  apply bool_decide_eq_true_1 in Hhas.
  destruct (Honly r' x Hx Hhas) as [-> | (x0 & Hx0 & Hd0)]; [done|].
  by apply (Hnewer r' x0).
Qed.

Section WithStableDiscriminators.
(** The connection's own [handlePacket] leaves the identity alone. *)
Hypothesis handlePacket_keeps_discriminator :
  forall c packet, discriminator (Connection_handlePacket c packet) = discriminator c.

(** After a datagram, the lookup for its discriminator returns the
    connection the datagram was handled with, when that connection was in
    the registry or a packet of the datagram has put it there. *)
Lemma datagram_connection_is_looked_up (udpPacket : UDPPacket) (st : Parser) (o : Outcome) :
  handleUDPPacket udpPacket st = Some o ->
  (connectionFor udpPacket st).2 = false \/
  (exists packet stream',
     carve (payload udpPacket) (connectionFor udpPacket st).1
       (Stream.new (payload udpPacket) None) = Normal (Some packet, stream')) ->
  lookupConnection (parser_of o) (route_discriminator (route udpPacket)) =
  Some (connectionFor udpPacket st).1.
Proof.
  set (d := route_discriminator (route udpPacket)).
  unfold handleUDPPacket, connectionFor. fold d.
  destruct (lookupConnection st d) as [r|] eqn:Hlookup; cbn [fst snd].
  - intros Ho _.
    apply findLast_Some in Hlookup as (older & newer & Hconns & Hr & Hnewer).
    assert (only_new_match (store st) r d (store st)) as Hinv.
    { split.
      - unfold hasDiscriminator in Hr. destruct (store st !! r) as [c|]; [|done].
        apply bool_decide_eq_true_1 in Hr. by exists c.
      - intros y x Hx Hdx. right. by exists x. }
    pose proof (packetLoop_only_new_match handlePacket_keeps_discriminator
                  _ _ _ _ _ _ _ _ _ Ho Hinv) as Hinv'.
    destruct (packetLoop_pushes _ _ _ _ _ _ _ Ho) as (more & Hconns' & Hmore).
    apply (lookup_only_new_match _ (store st) r d older (newer ++ more)); [done| |].
    + by rewrite Hconns', Hconns, <- app_assoc.
    + intros y x0 Hy Hx0 Hd0. apply elem_of_app in Hy as [Hy | Hy].
      * apply Hnewer in Hy. unfold hasDiscriminator in Hy. rewrite Hx0 in Hy.
        by rewrite bool_decide_eq_true_2 in Hy.
      * rewrite Forall_forall in Hmore. destruct (Hmore y Hy) as [-> | Hge]; [done|].
        apply lookup_lt_Some in Hx0. lia.
  - intros Ho [Hknown | (packet & stream' & Hcarve)]; [done|].
    set (connection := length (store st)) in *.
    unfold allocate in Ho. fold connection in Ho.
    set (c0 := set_serverAddress _ _) in Ho.
    set (st0 := {| store := store st ++ [c0]; connections := connections st;
                   emitted := emitted st |}) in Ho.
    rewrite packetLoop_unfold, (carve_needs_data _ _ _ _ _ Hcarve), Hcarve in Ho.
    set (st1 := processPacket connection true packet st0) in Ho.
    assert (only_new_match (store st0) connection d (store st0)) as Hinv0.
    { split.
      - exists c0. split; [|done]. unfold st0. cbn [store]. unfold connection.
        rewrite lookup_app_r by lia. by rewrite Nat.sub_diag.
      - intros y x Hx Hdx. right. by exists x. }
    pose proof (processPacket_only_new_match handlePacket_keeps_discriminator
                  _ _ _ true packet _ Hinv0) as Hinv1.
    fold st1 in Hinv1.
    pose proof (packetLoop_only_new_match handlePacket_keeps_discriminator
                  _ _ _ _ _ _ _ _ _ Ho Hinv1) as Hinv'.
    destruct (packetLoop_pushes _ _ _ _ _ _ _ Ho) as (more & Hconns & Hmore).
    destruct (processPacket_connections connection true packet st0)
      as (promoted & Hturn & Hpromoted).
    pose proof (processPacket_store_length connection true packet st0) as Hlen1.
    fold st1 in Hturn, Hlen1.
    assert (length (store st0) = S connection) as Hlen0.
    { unfold st0. cbn [store]. rewrite length_app. simpl. unfold connection. lia. }
    apply (lookup_only_new_match _ (store st0) connection d (connections st) (promoted ++ more));
      [done| |].
    + rewrite Hconns, Hturn. cbn [connections st0]. by rewrite <- !app_assoc.
    + intros y x0 Hy Hx0 Hd0. apply lookup_lt_Some in Hx0.
      apply elem_of_app in Hy as [Hy | Hy].
      * destruct Hpromoted as [-> | ->]; [by apply elem_of_nil in Hy|].
        apply list_elem_of_singleton in Hy. lia.
      * rewrite Forall_forall in Hmore. destruct (Hmore y Hy) as [-> | Hge]; [done | lia].
Qed.

End WithStableDiscriminators.

(** C5. A datagram whose source address is private goes from the client
    to the server and its discriminator is the destination [ip:port];
    any other datagram goes from the server to the client and its
    discriminator is the source [ip:port]. So a datagram from a private
    client and the reply to it, from a server that is not private, have
    the same discriminator and addresses. And where the connection's own
    [handlePacket] leaves discriminators alone, the reply is handled with
    the connection of the request: once the request has been handled with
    a connection that was in the registry, or that a packet of the request
    has put there, the lookup for the discriminator of the reply returns
    that connection, and handling the reply emits no 'connection' event
    and only packets of that connection. *)
Theorem direction_inference (udpPacket reply : UDPPacket) :
  (isPrivateIP (source udpPacket) = true ->
     route udpPacket =
     {| route_discriminator := destination udpPacket +:+ ":" +:+ pretty (destinationPort udpPacket);
        route_clientAddress := source udpPacket +:+ ":" +:+ pretty (sourcePort udpPacket);
        route_serverAddress := destination udpPacket +:+ ":" +:+ pretty (destinationPort udpPacket) |}) /\
  (isPrivateIP (source udpPacket) = false ->
     route udpPacket =
     {| route_discriminator := source udpPacket +:+ ":" +:+ pretty (sourcePort udpPacket);
        route_clientAddress := destination udpPacket +:+ ":" +:+ pretty (destinationPort udpPacket);
        route_serverAddress := source udpPacket +:+ ":" +:+ pretty (sourcePort udpPacket) |}) /\
  (source reply = destination udpPacket ->
   sourcePort reply = destinationPort udpPacket ->
   destination reply = source udpPacket ->
   destinationPort reply = sourcePort udpPacket ->
   isPrivateIP (source udpPacket) = true ->
   isPrivateIP (source reply) = false ->
   route reply = route udpPacket /\
   ((forall c packet, discriminator (Connection_handlePacket c packet) = discriminator c) ->
    forall st : Parser,
      (connectionFor udpPacket st).2 = false \/
      (exists packet stream',
         carve (payload udpPacket) (connectionFor udpPacket st).1
           (Stream.new (payload udpPacket) None) = Normal (Some packet, stream')) ->
      exists o o' packets replies,
        handleUDPPacket udpPacket st = Some o /\
        emitted (parser_of o) =
          emitted st ++
          (packets ≫= turnEvents (connectionFor udpPacket st).1 (connectionFor udpPacket st).2) /\
        Forall (fun packet => packet_connection packet = (connectionFor udpPacket st).1)
          packets /\
        lookupConnection (parser_of o) (route_discriminator (route reply)) =
          Some (connectionFor udpPacket st).1 /\
        handleUDPPacket reply (parser_of o) = Some o' /\
        emitted (parser_of o') = emitted (parser_of o) ++ (EvPacket <$> replies) /\
        Forall (fun packet => packet_connection packet = (connectionFor udpPacket st).1)
          replies)).
Proof.
  split; [|split].
  - intros Hp. unfold route. by rewrite Hp.
  - intros Hp. unfold route. by rewrite Hp.
  - intros Hs Hsp Hd Hdp Hp Hp'.
    assert (route reply = route udpPacket) as Hroute.
    { unfold route. rewrite Hp, Hp', Hs, Hsp, Hd, Hdp. done. }
    split; [done|]. intros Hid st Hregistered.
    destruct (handleUDPPacket_total udpPacket st) as [o Ho].
    destruct (handleUDPPacket_total reply (parser_of o)) as [o' Ho'].
    destruct (handleUDPPacket_events _ _ _ Ho) as (packets & Hev & Hconn).
    destruct (handleUDPPacket_events _ _ _ Ho') as (replies & Hev' & Hconn').
    pose proof (datagram_connection_is_looked_up Hid _ _ _ Ho Hregistered) as Hlookup.
    assert (connectionFor reply (parser_of o) = ((connectionFor udpPacket st).1, false)) as Hsame.
    { unfold connectionFor at 1. by rewrite Hroute, Hlookup. }
    rewrite Hsame in Hev', Hconn'. cbn [fst snd] in Hev', Hconn'.
    exists o, o', packets, replies.
    split; [done|]. split; [done|]. split; [done|].
    split; [by rewrite Hroute|]. split; [done|]. split; [|done].
    rewrite Hev'. reflexivity.
Qed.

End BothDirections.

Section BothDirectionsRuns.
#[local] Existing Instance toy_opaque.
#[local] Existing Instance toy_collaborators.

(** A datagram of 192.168.0.13:59901 to 52.38.81.235:62248 with a v1
    packet and the reply to it with two v1 packets: handled by a parser
    that has no connection, and by one that has the connection of the flow
    and promotes a secure server elsewhere while it handles the request. *)
Lemma direction_inference_witness :
  route {| source := "52.38.81.235"; sourcePort := 62248;
           destination := "192.168.0.13"; destinationPort := 59901;
           payload := two_v1_payload |} =
  route {| source := "192.168.0.13"; sourcePort := 59901;
           destination := "52.38.81.235"; destinationPort := 62248;
           payload := v1_packet |} /\
  route_discriminator
    (route {| source := "192.168.0.13"; sourcePort := 59901;
              destination := "52.38.81.235"; destinationPort := 62248;
              payload := v1_packet |}) = "52.38.81.235:62248" /\
  Forall (fun st =>
    exists o o' replies,
      handleUDPPacket {| source := "192.168.0.13"; sourcePort := 59901;
                         destination := "52.38.81.235"; destinationPort := 62248;
                         payload := v1_packet |} st = Some o /\
      lookupConnection (parser_of o) "52.38.81.235:62248" = Some 0%nat /\
      handleUDPPacket {| source := "52.38.81.235"; sourcePort := 62248;
                         destination := "192.168.0.13"; destinationPort := 59901;
                         payload := two_v1_payload |} (parser_of o) = Some o' /\
      emitted (parser_of o') = emitted (parser_of o) ++ (EvPacket <$> replies) /\
      Forall (fun packet => packet_connection packet = 0%nat) replies)
    [NEXParser_new; toy_parser elsewhere].
Proof.
  pose proof (direction_inference
    {| source := "192.168.0.13"; sourcePort := 59901;
       destination := "52.38.81.235"; destinationPort := 62248;
       payload := v1_packet |}
    {| source := "52.38.81.235"; sourcePort := 62248;
       destination := "192.168.0.13"; destinationPort := 59901;
       payload := two_v1_payload |}) as (Hup & _ & Hsame).
  destruct Hsame as [Hroute Hrun]; [reflexivity..|].
  split; [exact Hroute|]. split; [rewrite Hup; reflexivity|].
  apply Forall_cons_2; [|apply Forall_cons_2; [|constructor]].
  - destruct (Hrun (fun c packet => eq_refl) NEXParser_new)
      as (o & o' & packets & replies & Ho & _ & _ & Hlookup & Ho' & Hev & Hconn).
    + right. exists (PacketV1 0%nat v1_packet), (Stream.mk None v1_packet 30). reflexivity.
    + exists o, o', replies.
      split; [exact Ho|]. split; [exact Hlookup|]. split; [exact Ho'|].
      split; [exact Hev | exact Hconn].
  - destruct (Hrun (fun c packet => eq_refl) (toy_parser elsewhere))
      as (o & o' & packets & replies & Ho & _ & _ & Hlookup & Ho' & Hev & Hconn).
    + left. reflexivity.
    + exists o, o', replies.
      split; [exact Ho|]. split; [exact Hlookup|]. split; [exact Ho'|].
      split; [exact Hev | exact Hconn].
Defined.

(** The run on the parser that has no connection: one 'connection' event,
    for the request, and the three packets on that connection. *)
Example request_then_reply_toy_run :
  exists o o',
    handleUDPPacket {| source := "192.168.0.13"; sourcePort := 59901;
                       destination := "52.38.81.235"; destinationPort := 62248;
                       payload := v1_packet |} NEXParser_new = Some o /\
    handleUDPPacket {| source := "52.38.81.235"; sourcePort := 62248;
                       destination := "192.168.0.13"; destinationPort := 59901;
                       payload := two_v1_payload |} (parser_of o) = Some o' /\
    connections (parser_of o') = [0%nat] /\
    emitted (parser_of o') =
      [EvConnection 0%nat; EvPacket (PacketV1 0%nat v1_packet);
       EvPacket (PacketV1 0%nat v1_packet); EvPacket (PacketV1 0%nat v1_packet)].
Proof. eexists _, _. split; [|split; [|split]]; vm_compute; reflexivity. Qed.

End BothDirectionsRuns.
